(** * dmoj.cptbox.tracer: the traced-process supervisor

    A shallow embedding of [src/dmoj/cptbox/tracer.py] (classes
    [AdvancedDebugger] and [TracedPopen]) together with the properties of
    the policy table, the seccomp whitelist, the worker and watchdog
    threads and the result flags.

    Python values are modelled as follows: ints as [Z], a number that may
    be an int or a float and on which the code computes (the CPU limit) as
    a [pynum] with binary64 arithmetic, counters and limits that are only
    compared by their value in [Q], [bytes] as [list Byte.byte], [str] as
    [string], [None]-able values as [option], dicts as [gmap], lists that
    are updated by index as [list] with stdpp's lookup and insert, and
    exceptions as an explicit [result] type. *)

From Stdlib Require Import ZArith QArith List String Ascii Bool Lia.
From Stdlib Require PrimFloat FloatOps SpecFloat Uint63.
From stdpp Require Import base decidable option list functions gmap strings pretty.

Local Open Scope Z_scope.

(** ** Python preliminaries *)

(** An argument of an exception instance. *)
Inductive pyarg :=
| AStr (s : string)
| ABytes (b : list Byte.byte)
| AInt (n : Z).

(** An exception class: its name, and what calling it without arguments
    does: it gives an instance ([None]), or the call fails with a
    [TypeError] with the given message because the constructor of the class
    requires arguments. *)
Record pyclass := mk_class { class_name : string; class_no_args : option string }.

(** A class that can be instantiated without arguments, as [OSError],
    [ValueError] and most built-in exception classes can. *)
Definition builtin (name : string) : pyclass := mk_class name None.

(** An exception instance: its class and its [args]. *)
Record exn := mk_exn { exc_class : pyclass; exc_args : list pyarg }.

(** The name of the class of an exception. *)
Definition exc_type (e : exn) : string := class_name (exc_class e).

Definition ValueError (msg : string) : exn := mk_exn (builtin "ValueError") [AStr msg].
Definition TypeError (msg : string) : exn := mk_exn (builtin "TypeError") [AStr msg].
Definition IndexError (msg : string) : exn := mk_exn (builtin "IndexError") [AStr msg].
Definition AttributeError (msg : string) : exn :=
  mk_exn (builtin "AttributeError") [AStr msg].
(** [errno.errorcode[err]] for an error number without a name *)
Definition KeyError (key : Z) : exn := mk_exn (builtin "KeyError") [AInt key].
(** [class MaxLengthExceeded(ValueError)], raised with the bytes read. *)
Definition MaxLengthExceeded (read : list Byte.byte) : exn :=
  mk_exn (builtin "MaxLengthExceeded") [ABytes read].

(** The constructor of [UnicodeDecodeError] takes five arguments. *)
Definition UnicodeDecodeError_class : pyclass :=
  mk_class "UnicodeDecodeError" (Some "function takes exactly 5 arguments (0 given)").

(** [raise cls] with a class [cls] calls it without arguments and raises
    the new instance, whose [args] are empty; when the constructor of the
    class requires arguments the call itself fails with a [TypeError], and
    that is what is raised. *)
Definition raise_class (cls : pyclass) : exn :=
  match class_no_args cls with
  | None => mk_exn cls []
  | Some msg => TypeError msg
  end.

#[global] Instance byte_eq_dec : EqDecision Byte.byte := Byte.byte_eq_dec.
#[global] Instance pyarg_eq_dec : EqDecision pyarg.
Proof. solve_decision. Defined.
#[global] Instance pyclass_eq_dec : EqDecision pyclass.
Proof. solve_decision. Defined.
#[global] Instance exn_eq_dec : EqDecision exn.
Proof. solve_decision. Defined.

(** ** Numbers

    A number that is an [int] or a [float]. Floats are IEEE 754 binary64
    numbers and their arithmetic rounds to nearest, ties to even. *)
Inductive pynum :=
| NInt (n : Z)
| NFloat (f : PrimFloat.float).

(** The value of a float. An infinity and a NaN have none: in the code
    they occur only as limits that a counter is compared against with
    [counter > limit], which is false for every counter when the limit is
    positive infinity or a NaN and true when it is negative infinity; they
    are given the values [2 ^ 1024] and [- 2 ^ 1024], above and below every
    binary64 number, for which the comparison has the same answer. *)
Definition float_value (f : PrimFloat.float) : Q :=
  match FloatOps.Prim2SF f with
  | SpecFloat.S754_zero _ => 0
  | SpecFloat.S754_finite s m e =>
      (if s then - inject_Z (Zpos m) else inject_Z (Zpos m)) * Qpower 2 e
  | SpecFloat.S754_infinity s => if s then - Qpower 2 1024 else Qpower 2 1024
  | SpecFloat.S754_nan => Qpower 2 1024
  end%Q.

Definition num_value (x : pynum) : Q :=
  match x with
  | NInt n => inject_Z n
  | NFloat f => float_value f
  end.

Coercion num_value : pynum >-> Q.

(** [float(k)] for a small int literal [k], [0 <= k < 2 ^ 53]: it is exact. *)
Definition float_of_literal (k : Z) : PrimFloat.float :=
  PrimFloat.of_uint63 (Uint63.of_Z k).

(** [x * k] and [x + k] for an int literal [k]: ints are exact, and with a
    float [x] the literal is converted and the operation is the float's. *)
Definition py_mul (x : pynum) (k : Z) : pynum :=
  match x with
  | NInt n => NInt (n * k)
  | NFloat f => NFloat (PrimFloat.mul f (float_of_literal k))
  end.

Definition py_add (x : pynum) (k : Z) : pynum :=
  match x with
  | NInt n => NInt (n + k)
  | NFloat f => NFloat (PrimFloat.add f (float_of_literal k))
  end.

Inductive result (A : Type) :=
| Ok (a : A)
| Raise (e : exn).
Arguments Ok {A} a.
Arguments Raise {A} e.

Definition bind {A B} (r : result A) (k : A -> result B) : result B :=
  match r with
  | Ok a => k a
  | Raise e => Raise e
  end.

Notation "x <- r ;; k" := (bind r (fun x => k))
  (at level 100, r at next level, right associativity).

(** [for x in l: body], threading the mutated object and stopping at the
    first exception. *)
Fixpoint for_each {A S} (l : list A) (body : A -> S -> result S) (s : S) : result S :=
  match l with
  | [] => Ok s
  | x :: l' => s' <- body x s ;; for_each l' body s'
  end.

(** Python list indexing: indices in [0, len) count from the front, indices
    in [-len, 0) count from the back, anything else is an [IndexError]. *)
Definition py_index (len : nat) (i : Z) : option nat :=
  if decide (0 <= i < Z.of_nat len) then Some (Z.to_nat i)
  else if decide (- Z.of_nat len <= i < 0) then Some (Z.to_nat (Z.of_nat len + i))
  else None.

Definition py_getitem {A} (l : list A) (i : Z) : result A :=
  match py_index (length l) i with
  | Some k =>
      match l !! k with
      | Some x => Ok x
      | None => Raise (IndexError "list index out of range")
      end
  | None => Raise (IndexError "list index out of range")
  end.

Definition py_setitem {A} (l : list A) (i : Z) (x : A) : result (list A) :=
  match py_index (length l) i with
  | Some k => Ok (<[k:=x]> l)
  | None => Raise (IndexError "list assignment index out of range")
  end.

(** ** ABIs *)

Inductive abi :=
| PTBOX_ABI_X86
| PTBOX_ABI_X64
| PTBOX_ABI_X32
| PTBOX_ABI_ARM
| PTBOX_ABI_FREEBSD_X64
| PTBOX_ABI_ARM64
| PTBOX_ABI_INVALID.

#[global] Instance abi_eq_dec : EqDecision abi.
Proof. solve_decision. Defined.

(** [_SYSCALL_INDICIES: List[Optional[int]]]: the column of the translation
    table of each ABI; entries that are never assigned stay [None]. *)
Definition _SYSCALL_INDICIES (a : abi) : option nat :=
  match a with
  | PTBOX_ABI_X86 => Some 0%nat
  | PTBOX_ABI_X64 => Some 1%nat
  | PTBOX_ABI_X32 => Some 2%nat
  | PTBOX_ABI_ARM => Some 3%nat
  | PTBOX_ABI_FREEBSD_X64 => Some 4%nat
  | PTBOX_ABI_ARM64 => Some 5%nat
  | PTBOX_ABI_INVALID => None
  end.

Definition _address_bits (a : abi) : option Z :=
  match a with
  | PTBOX_ABI_X86 => Some 32
  | PTBOX_ABI_X64 => Some 64
  | PTBOX_ABI_X32 => Some 32
  | PTBOX_ABI_ARM => Some 32
  | PTBOX_ABI_ARM64 => Some 64
  | PTBOX_ABI_FREEBSD_X64 => Some 64
  | PTBOX_ABI_INVALID => None
  end.

(** ** The debugger handle *)

(** The state of the tracee that the debugger exposes at a stop: its ABI,
    the syscall number and unsigned arguments read from the registers, and
    its memory ([None] at an address that cannot be read). *)
Record Debugger := mk_debugger {
  dbg_abi : abi;
  dbg_syscall : Z;
  uarg0 : Z; uarg1 : Z; uarg2 : Z; uarg3 : Z; uarg4 : Z; uarg5 : Z;
  dbg_memory : Z -> option Byte.byte
}.

(** ** Handlers *)

(** The values a caller can put in the [security] map, told apart the way
    the constructor does: [isinstance(handler, int)], [callable(handler)],
    and whether the handler can be appended to a [str]. *)
Inductive handler_value :=
| HInt (n : Z)
| HCallable (f : Debugger -> bool)
| HStr (s : string)
| HOther (type_name : string).

(** ** Constants of the extension module and of the generated tables

    [dmoj.cptbox._cptbox], [dmoj.cptbox.handlers] and [dmoj.cptbox.syscalls]
    are not part of this development; their constants are parameters. A row
    [translator i] holds, per ABI column, the native numbers of canonical
    syscall [i] (an entry may be [None]); the table has [SYSCALL_COUNT]
    rows. [sys_platform] is [sys.platform], [errorcode] is the dict
    [errno.errorcode] of the platform, from an error number to its name,
    and [utf8text] is the decoder of [dmoj.utils.unicode]. *)
Class Cptbox := {
  MAX_SYSCALL_NUMBER : nat;
  SUPPORTED_ABIS : list abi;
  NATIVE_ABI : abi;
  ALLOW : Z;
  DISALLOW : Z;
  _CALLBACK : Z;
  SYSCALL_COUNT : nat;
  translator : nat -> nat -> list (option Z);
  by_id : nat -> string;
  sys_exit : nat;
  sys_exit_group : nat;
  sys_getpid : nat;
  sys_platform : string;
  errorcode : Z -> option string;
  utf8text : list Byte.byte -> result string
}.

(** ** The policy table *)

(** [self._callbacks] holds, per ABI, a list of [MAX_SYSCALL_NUMBER]
    optional callbacks. [handler_table] is the dense per-(ABI, native
    number) table of handler constants that [Process._handler] fills. *)
Record Policy := mk_policy {
  _callbacks : abi -> list (option (Debugger -> bool));
  handler_table : abi -> list Z
}.

Section Tracer.
Context `{Cptbox}.

(** [[[None] * MAX_SYSCALL_NUMBER for _ in range(PTBOX_ABI_COUNT)]]; in the
    handler table entries that were never written are [Deny]. *)
Definition policy_init : Policy :=
  {| _callbacks := fun _ => replicate MAX_SYSCALL_NUMBER None;
     handler_table := fun _ => replicate MAX_SYSCALL_NUMBER DISALLOW |}.

(** Modelled from the spec: [Process._handler(abi, call, handler)] of the
    extension module is missing; it stores the handler constant in the
    dense table keyed by (abi, native number). A number outside the table
    stores nothing. *)
Definition _handler (a : abi) (call : Z) (handler : Z) (p : Policy) : Policy :=
  if decide (0 <= call) then
    {| _callbacks := _callbacks p;
       handler_table := <[a := <[Z.to_nat call := handler]> (handler_table p a)]> (handler_table p) |}
  else p.

(** [security.get(i, DISALLOW)] *)
Definition security_get (security : gmap nat handler_value) (i : nat) : handler_value :=
  default (HInt DISALLOW) (security !! i).

(** The character that delimits the type name in the interpreter's message. *)
Definition double_quote : string := String "034"%char EmptyString.

(** The body of the innermost loop of [__init__]: lines 144-152. *)
Definition install_call (security : gmap nat handler_value) (a : abi) (i : nat)
    (call : option Z) (p : Policy) : result Policy :=
  match call with
  | None => Ok p
  | Some call =>
      match security_get security i with
      | HInt handler => Ok (_handler a call handler p)
      | HCallable handler =>
          cbs <- py_setitem (_callbacks p a) call (Some handler) ;;
          Ok (_handler a call _CALLBACK
                {| _callbacks := <[a := cbs]> (_callbacks p);
                   handler_table := handler_table p |})
      | HStr handler => Raise (ValueError ("Handler not callable: " ++ handler))
      | HOther ty =>
          Raise (TypeError ("can only concatenate str (not " ++ double_quote ++ ty ++ double_quote ++ ") to str"))
      end
  end.

(** [translator[i][index]] with [index = _SYSCALL_INDICIES[abi]] *)
Definition translator_row (i : nat) (index : option nat) : result (list (option Z)) :=
  match index with
  | Some index => Ok (translator i index)
  | None => Raise (TypeError "indices must be integers or slices, not NoneType")
  end.

(** The loop of [__init__] over [SUPPORTED_ABIS], lines 140-152. *)
Definition install_policy (security : gmap nat handler_value) (p : Policy) : result Policy :=
  for_each SUPPORTED_ABIS (fun a p =>
    let index := _SYSCALL_INDICIES a in
    for_each (seq 0 SYSCALL_COUNT) (fun i p =>
      calls <- translator_row i index ;;
      for_each calls (install_call security a i) p) p) p.

(** [TracedPopen._callback], with [self.debugger] passed explicitly. *)
Definition _callback (p : Policy) (debugger : Debugger) (syscall : Z) : bool :=
  if decide (dbg_abi debugger = PTBOX_ABI_INVALID) then false
  else
    match py_getitem (_callbacks p (dbg_abi debugger)) syscall with
    | Raise _ =>
        if decide (dbg_abi debugger = PTBOX_ABI_ARM) then
          (0xF0000 <? syscall) && (syscall <? 0xF0006)
        else false
    | Ok (Some callback) => callback debugger
    | Ok None => false
    end.

(** The body of the inner loop of [_get_seccomp_whitelist], lines 179-182. *)
Definition whitelist_call (handler : handler_value) (call : option Z)
    (whitelist : list bool) : result (list bool) :=
  match call with
  | None => Ok whitelist
  | Some call =>
      match handler with
      | HInt handler => py_setitem whitelist call (handler =? ALLOW)
      | _ => Ok whitelist
      end
  end.

(** The body of its outer loop, lines 173-182; [self._security.get] raises
    when the map is [None]. *)
Definition whitelist_syscall (security : option (gmap nat handler_value))
    (index : option nat) (i : nat) (whitelist : list bool) : result (list bool) :=
  if decide (i = sys_exit \/ i = sys_exit_group) then Ok whitelist
  else
    handler <- match security with
               | Some security => Ok (security_get security i)
               | None => Raise (AttributeError "'NoneType' object has no attribute 'get'")
               end ;;
    calls <- translator_row i index ;;
    for_each calls (whitelist_call handler) whitelist.

(** [TracedPopen._get_seccomp_whitelist] *)
Definition _get_seccomp_whitelist (security : option (gmap nat handler_value))
    : result (list bool) :=
  let whitelist := replicate MAX_SYSCALL_NUMBER false in
  let index := _SYSCALL_INDICIES NATIVE_ABI in
  for_each (seq 0 SYSCALL_COUNT) (whitelist_syscall security index) whitelist.

(** Every native number of the translation table indexes the tables. *)
Definition translator_wf : Prop :=
  forall i index c, (i < SYSCALL_COUNT)%nat -> In (Some c) (translator i index) ->
    0 <= c < Z.of_nat MAX_SYSCALL_NUMBER.

(** On one ABI column a native number belongs to one canonical syscall. *)
Definition translator_functional (index : nat) : Prop :=
  forall i j c, (i < SYSCALL_COUNT)%nat -> (j < SYSCALL_COUNT)%nat ->
    In (Some c) (translator i index) -> In (Some c) (translator j index) -> i = j.

(** Canonical syscall [i] owns native number [n] on a column, is neither
    [exit] nor [exit_group], and its handler in the map is [ALLOW]. *)
Definition allowed_by (security : gmap nat handler_value) (index : nat) (n : Z) (i : nat) : Prop :=
  (i < SYSCALL_COUNT)%nat /\ i <> sys_exit /\ i <> sys_exit_group /\
  In (Some n) (translator i index) /\ security_get security i = HInt ALLOW.

(** Only allowed syscalls are marked in a whitelist. *)
Definition whitelist_sound (security : gmap nat handler_value) (index : nat)
    (wl : list bool) : Prop :=
  length wl = MAX_SYSCALL_NUMBER /\
  forall k, wl !! k = Some true -> exists i, allowed_by security index (Z.of_nat k) i.

Definition policy_sized (p : Policy) : Prop :=
  (forall a, length (_callbacks p a) = MAX_SYSCALL_NUMBER) /\
  (forall a, length (handler_table p a) = MAX_SYSCALL_NUMBER).

(** Where a slot of the tables comes from: a callback was put there for a
    canonical syscall with that native number, and a handler constant is
    the initial [DISALLOW] or the one of such a canonical syscall. *)
Definition policy_traced (security : gmap nat handler_value) (p : Policy) : Prop :=
  (forall a k f, _callbacks p a !! k = Some (Some f) ->
     exists i index, _SYSCALL_INDICIES a = Some index /\ (i < SYSCALL_COUNT)%nat /\
       In (Some (Z.of_nat k)) (translator i index) /\
       security_get security i = HCallable f) /\
  (forall a k h, handler_table p a !! k = Some h ->
     h = DISALLOW \/
     exists i index, _SYSCALL_INDICIES a = Some index /\ (i < SYSCALL_COUNT)%nat /\
       In (Some (Z.of_nat k)) (translator i index) /\
       (security_get security i = HInt h \/
        exists f, security_get security i = HCallable f /\ h = _CALLBACK)).

End Tracer.

(** ** The supervisor object *)

Inductive signal := SIGKILL | SIGWINCH | SIGSTOP | SIGXCPU | OtherSignal (n : Z).
Inductive event := Died | SpawnedOrErrored.
Inductive thread := Shocker | Worker.

(** What the supervisor does to the outside world, in the order it does
    it. [Raised e] is an exception that leaves a method the extension
    called; the last three are steps of the monitor loop of the extension. *)
Inductive action :=
| Spawn
| Close (fd : Z)
| EventSet (e : event)
| OomScoreAdj (pid : Z)
| ThreadStart (t : thread)
| Killpg (pid : Z) (sig : signal)
| LogPtraceError (err : option Z)
| Raised (e : exn)
| PrintTraceback
| ContinueTracee
| InjectSignal (sig : signal)
| KillTracee.

#[global] Instance signal_eq_dec : EqDecision signal.
Proof. solve_decision. Defined.
#[global] Instance event_eq_dec : EqDecision event.
Proof. solve_decision. Defined.
#[global] Instance thread_eq_dec : EqDecision thread.
Proof. solve_decision. Defined.
#[global] Instance action_eq_dec : EqDecision action.
Proof. solve_decision. Defined.

(** A [stdin]/[stdout]/[stderr] argument that is not [None]: an [int]
    ([PIPE] is the int -1) or an object with a [fileno()]. *)
Inductive stream :=
| SInt (n : Z)
| SFile (fileno : Z).

Definition PIPE : Z := -1.

(** What [__init_streams] leaves for the worker: the child ends and whether
    the supervisor has to close them. *)
Record Streams := mk_streams {
  _child_stdin : Z; stdin_needs_close : bool;
  _child_stdout : Z; stdout_needs_close : bool;
  _child_stderr : Z; stderr_needs_close : bool
}.

(** The properties of the extension's [Process] that the monitor publishes. *)
Record Process := mk_process {
  pid : Z;
  returncode : option Z;
  execution_time : Q;
  wall_clock_time : Q;
  max_memory : Z;
  was_initialized : bool
}.

(** [(syscall, callname, [uarg0..uarg5], errno or None)] *)
Definition fault : Type := Z * string * list Z * option Z.

(** The attributes that the constructor sets and nothing changes later. *)
Record Settings := mk_settings {
  use_seccomp : bool;
  _time : Q;
  _wall_time : Q;
  _cpu_time : Q;
  _memory : Z;
  _child_personality : Z;
  _child_memory : Z;
  _child_address : Z;
  _nproc : Z;
  _fsize : Z;
  streams : Streams;
  _security : option (gmap nat handler_value);
  _trace_syscalls : option bool
}.

(** A [TracedPopen]. [_spawn_error] holds an exception class; [history]
    lists the actions performed so far, oldest first. *)
Record TracedPopen := mk_self {
  settings : Settings;
  policy : Policy;
  _is_tle : bool;
  _is_ole : bool;
  _last_ptrace_errno : option Z;
  protection_fault : option fault;
  _died : bool;
  _spawned_or_errored : bool;
  _spawn_error : option pyclass;
  process : Process;
  debugger : Debugger;
  history : list action
}.

Definition set_policy (p : Policy) (self : TracedPopen) : TracedPopen :=
  mk_self (settings self) p (_is_tle self) (_is_ole self) (_last_ptrace_errno self)
    (protection_fault self) (_died self) (_spawned_or_errored self) (_spawn_error self)
    (process self) (debugger self) (history self).

Definition set_is_tle (b : bool) (self : TracedPopen) : TracedPopen :=
  mk_self (settings self) (policy self) b (_is_ole self) (_last_ptrace_errno self)
    (protection_fault self) (_died self) (_spawned_or_errored self) (_spawn_error self)
    (process self) (debugger self) (history self).

Definition set_is_ole (b : bool) (self : TracedPopen) : TracedPopen :=
  mk_self (settings self) (policy self) (_is_tle self) b (_last_ptrace_errno self)
    (protection_fault self) (_died self) (_spawned_or_errored self) (_spawn_error self)
    (process self) (debugger self) (history self).

Definition set_last_ptrace_errno (e : option Z) (self : TracedPopen) : TracedPopen :=
  mk_self (settings self) (policy self) (_is_tle self) (_is_ole self) e
    (protection_fault self) (_died self) (_spawned_or_errored self) (_spawn_error self)
    (process self) (debugger self) (history self).

Definition set_protection_fault (f : option fault) (self : TracedPopen) : TracedPopen :=
  mk_self (settings self) (policy self) (_is_tle self) (_is_ole self) (_last_ptrace_errno self)
    f (_died self) (_spawned_or_errored self) (_spawn_error self)
    (process self) (debugger self) (history self).

Definition set_spawn_error (e : option pyclass) (self : TracedPopen) : TracedPopen :=
  mk_self (settings self) (policy self) (_is_tle self) (_is_ole self) (_last_ptrace_errno self)
    (protection_fault self) (_died self) (_spawned_or_errored self) e
    (process self) (debugger self) (history self).

Definition set_process (pr : Process) (self : TracedPopen) : TracedPopen :=
  mk_self (settings self) (policy self) (_is_tle self) (_is_ole self) (_last_ptrace_errno self)
    (protection_fault self) (_died self) (_spawned_or_errored self) (_spawn_error self)
    pr (debugger self) (history self).

Definition set_debugger (d : Debugger) (self : TracedPopen) : TracedPopen :=
  mk_self (settings self) (policy self) (_is_tle self) (_is_ole self) (_last_ptrace_errno self)
    (protection_fault self) (_died self) (_spawned_or_errored self) (_spawn_error self)
    (process self) d (history self).

(** Performing an action appends it to the history. *)
Definition perform (a : action) (self : TracedPopen) : TracedPopen :=
  mk_self (settings self) (policy self) (_is_tle self) (_is_ole self) (_last_ptrace_errno self)
    (protection_fault self) (_died self) (_spawned_or_errored self) (_spawn_error self)
    (process self) (debugger self) (history self ++ [a]).

(** [threading.Event.set] on [self._died] or [self._spawned_or_errored] *)
Definition event_set (e : event) (self : TracedPopen) : TracedPopen :=
  let self := perform (EventSet e) self in
  match e with
  | Died =>
      mk_self (settings self) (policy self) (_is_tle self) (_is_ole self)
        (_last_ptrace_errno self) (protection_fault self) true (_spawned_or_errored self)
        (_spawn_error self) (process self) (debugger self) (history self)
  | SpawnedOrErrored =>
      mk_self (settings self) (policy self) (_is_tle self) (_is_ole self)
        (_last_ptrace_errno self) (protection_fault self) (_died self) true
        (_spawn_error self) (process self) (debugger self) (history self)
  end.

(** Truth value of a number: [if time:] *)
Definition truthy (q : Q) : bool := negb (Qeq_bool q 0).

(** [a > b] on numbers *)
Definition Qgtb (a b : Q) : bool := negb (Qle_bool a b).

(** The arguments of the constructor that matter here ([args],
    [executable], [env] and [cwd] are only handed to [_spawn]). The CPU
    limit [time] is an int or a float; a [wall_time] that is given is
    stored as it is, so only its value matters. *)
Record InitArgs := mk_args {
  avoid_seccomp : bool;
  security : option (gmap nat handler_value);
  time : pynum;
  memory : Z;
  stdin : option stream;
  stdout : option stream;
  stderr : option stream;
  nproc : Z;
  fsize : Z;
  address_grace : Z;
  data_grace : Z;
  personality : Z;
  wall_time : option Q
}.

(** A ptrace stop as the monitor loop sees it. *)
Inductive stop :=
| SyscallEntry (d : Debugger)
| SyscallExit (cpu wall : Q) (mem : Z)
| SignalDelivery (sig : signal)
| PtraceFailure (errno : Z)
| Exited (code : Z) (cpu wall : Q) (mem : Z).

(** One observation of the watchdog: whether [self._died.wait(1)] returned
    [True], the counters it reads then, and whether [os.killpg] fails with
    an [OSError]. *)
Record wake := mk_wake {
  wake_died : bool;
  wake_process : Process;
  wake_killpg_fails : bool
}.

(** What the operating system, the extension and the scheduler answer
    during one run: the state of a [Process] and of its debugger before
    there is a child, the descriptors of the three possible [os.pipe()]
    calls, the pid of the child or the exception of [_spawn], and the stops
    of the tracee. The last two fields say how far the other threads are
    when the caller of the constructor, which was waiting for
    [spawned_or_errored], runs again: with [resumed_after = None] it runs
    at once; with [Some k] the worker has gone on and its monitor has seen
    the first [k] stops, and the watchdog, if it was started and [died] is
    not set, has had the wakes [early_wakes]. *)
Record Environment := mk_env {
  fresh_process : Process;
  fresh_debugger : Debugger;
  stdin_pipe : Z * Z;
  stdout_pipe : Z * Z;
  stderr_pipe : Z * Z;
  spawn_result : result Z;
  stops : list stop;
  resumed_after : option nat;
  early_wakes : list wake
}.

(** A value of [is_mle]: [a and b] is [a] when [a] is falsy. *)
Inductive pyvalue :=
| PyInt (n : Z)
| PyBool (b : bool).

Definition py_bool (v : pyvalue) : bool :=
  match v with
  | PyInt n => negb (n =? 0)
  | PyBool b => b
  end.

Section Supervisor.
Context `{Cptbox}.

(** [FREEBSD = sys.platform.startswith('freebsd')] *)
Definition FREEBSD : bool := String.prefix "freebsd" sys_platform.

(** *** The debugger *)

(** [syscall in call[index]] *)
Definition has_native (syscall : Z) (calls : list (option Z)) : bool :=
  existsb (fun c => match c with Some c => c =? syscall | None => false end) calls.

(** [AdvancedDebugger.get_syscall_name]; the column of an ABI is [None]
    exactly for [PTBOX_ABI_INVALID]. *)
Definition get_syscall_name (d : Debugger) (syscall : Z) : string :=
  match _SYSCALL_INDICIES (dbg_abi d) with
  | None => "failed to read registers"
  | Some index =>
      match find (fun id => has_native syscall (translator id index)) (seq 0 SYSCALL_COUNT) with
      | Some id => by_id id
      | None => "unknown"
      end
  end.

(** [AdvancedDebugger.syscall_name] *)
Definition syscall_name (d : Debugger) : string := get_syscall_name d (dbg_syscall d).

(** [AdvancedDebugger.address_bits] *)
Definition address_bits (d : Debugger) : option Z := _address_bits (dbg_abi d).

(** [AdvancedDebugger.noop_syscall_id]: the first native number of
    [getpid] on the tracee's ABI. *)
Definition noop_syscall_id (d : Debugger) : result (option Z) :=
  match _SYSCALL_INDICIES (dbg_abi d) with
  | None => Raise (ValueError "ABI is invalid")
  | Some index =>
      match translator sys_getpid index with
      | call :: _ => Ok call
      | [] => Raise (IndexError "tuple index out of range")
      end
  end.

(** [can_debug] *)
Definition can_debug (a : abi) : bool := bool_decide (a ∈ SUPPORTED_ABIS).

(** Modelled from the spec: [Debugger.readstr(address, size)] of the
    extension module is missing; it reads a NUL-terminated string from the
    tracee's memory, at most [size] bytes of it, and returns null when the
    memory is unreadable. *)
Fixpoint Debugger_readstr (mem : Z -> option Byte.byte) (address : Z) (size : nat)
    : option (list Byte.byte) :=
  match size with
  | O => Some []
  | S size' =>
      match mem address with
      | None => None
      | Some b =>
          if Byte.eqb b Byte.x00 then Some []
          else option_map (cons b) (Debugger_readstr mem (address + 1) size')
      end
  end.

(** The [n] bytes of memory from [address] on can be read and none of them
    is NUL. *)
Definition string_bytes (mem : Z -> option Byte.byte) (address : Z) (n : nat) : Prop :=
  forall k, (k < n)%nat ->
    exists b, mem (address + Z.of_nat k) = Some b /\ b <> Byte.x00.

(** [AdvancedDebugger.readstr]; [Ok None] is a returned [None]. *)
Definition readstr (d : Debugger) (address : Z) (max_size : nat) : result (option string) :=
  let address :=
    if decide (address_bits d = Some 32) then Z.land address 0xFFFFFFFF
    else address in
  match Debugger_readstr (dbg_memory d) address (max_size + 1) with
  | None => Ok None
  | Some read =>
      if (max_size <? length read)%nat then Raise (MaxLengthExceeded read)
      else text <- utf8text read ;; Ok (Some text)
  end.

(** *** Callbacks of the monitor *)

(** [TracedPopen._protection_fault]; the error number of a failed ptrace
    call is logged, what is recorded for it is [None]. The log line names
    the error with [errno.errorcode[err]]: for a number that has no name
    this raises a [KeyError] before anything is logged or recorded, and the
    exception leaves the method. *)
Definition _protection_fault (syscall : Z) (is_update : bool) (self : TracedPopen) : TracedPopen :=
  if syscall =? -1 then
    let err := _last_ptrace_errno self in
    match err with
    | Some e =>
        match errorcode e with
        | Some _ =>
            let self := perform (LogPtraceError err) self in
            set_protection_fault (Some (-1, "ptrace fail", replicate 6 0, None)) self
        | None => perform (Raised (KeyError e)) self
        end
    | None =>
        let self := perform (LogPtraceError err) self in
        set_protection_fault (Some (-1, "ptrace fail", replicate 6 0, None)) self
    end
  else
    let callname := get_syscall_name (debugger self) syscall in
    set_protection_fault
      (Some (syscall, callname,
             [uarg0 (debugger self); uarg1 (debugger self); uarg2 (debugger self);
              uarg3 (debugger self); uarg4 (debugger self); uarg5 (debugger self)],
             if is_update then _last_ptrace_errno self else None)) self.

Definition _ptrace_error (error : Z) (self : TracedPopen) : TracedPopen :=
  set_last_ptrace_errno (Some error) self.

Definition _cpu_time_exceeded (self : TracedPopen) : TracedPopen :=
  set_is_tle true self.

(** *** The monitor loop *)

(** [os.killpg(pid, sig)]; it can fail with an [OSError]. *)
Definition os_killpg (fails : bool) (pid : Z) (sig : signal) (self : TracedPopen)
    : TracedPopen * result unit :=
  (perform (Killpg pid sig) self,
   if fails then Raise (mk_exn (builtin "OSError") []) else Ok tt).

(** The signal that only wakes the monitor: [_shocker_thread], line 339. *)
Definition wake_signal : signal :=
  match String.index 0 "freebsd" sys_platform with
  | Some _ => SIGSTOP
  | None => SIGWINCH
  end.

(** Modelled from the spec: the dispatch [on_syscall(abi, native_n,
    debugger)] of the extension's monitor is missing; it looks up the
    handler of the native number, answers for [Allow] and [Deny] itself and
    asks [_callback] for [Callback] and for numbers outside the table. *)
Definition on_syscall (self : TracedPopen) (d : Debugger) : bool :=
  let n := dbg_syscall d in
  if decide (0 <= n < Z.of_nat MAX_SYSCALL_NUMBER) then
    match handler_table (policy self) (dbg_abi d) !! Z.to_nat n with
    | Some h =>
        if h =? ALLOW then true
        else if h =? _CALLBACK then _callback (policy self) d n
        else false
    | None => false
    end
  else _callback (policy self) d n.

Definition publish (cpu wall : Q) (mem : Z) (self : TracedPopen) : TracedPopen :=
  set_process
    {| pid := pid (process self); returncode := returncode (process self);
       execution_time := cpu; wall_clock_time := wall; max_memory := mem;
       was_initialized := was_initialized (process self) |} self.

Definition record_exit (code : Z) (self : TracedPopen) : TracedPopen :=
  set_process
    {| pid := pid (process self); returncode := Some code;
       execution_time := execution_time (process self);
       wall_clock_time := wall_clock_time (process self);
       max_memory := max_memory (process self);
       was_initialized := was_initialized (process self) |} self.

(** How the monitor stands after a stop: the tracee runs on, it has been
    terminated, or it has exited with a code. *)
Inductive step_result :=
| Running
| Killed
| ExitedWith (code : Z).

(** Modelled from the spec: the monitor loop of the extension is missing;
    this is what it does at one stop. A syscall reported as -1 records the
    ptrace failure and terminates the tracee; at any other syscall entry the
    verdict of [on_syscall] continues the tracee or records a protection
    fault and terminates it; a syscall exit publishes the counters; SIGXCPU
    sets the time-limit flag and kills; the wake signal is swallowed and any
    other signal is injected; the exit of the child records the return
    code. The monitor terminates the tracee after [_protection_fault]
    whether or not an exception left that method. *)
Definition monitor_step (s : stop) (self : TracedPopen) : TracedPopen * step_result :=
  match s with
  | SyscallEntry d =>
      let self := set_debugger d self in
      if dbg_syscall d =? -1 then
        (perform KillTracee (_protection_fault (-1) false self), Killed)
      else if on_syscall self d then (perform ContinueTracee self, Running)
      else (perform KillTracee (_protection_fault (dbg_syscall d) false self), Killed)
  | SyscallExit cpu wall mem => (perform ContinueTracee (publish cpu wall mem self), Running)
  | SignalDelivery sig =>
      if decide (sig = SIGXCPU) then (perform KillTracee (_cpu_time_exceeded self), Killed)
      else if decide (sig = wake_signal) then (perform ContinueTracee self, Running)
      else (perform ContinueTracee (perform (InjectSignal sig) self), Running)
  | PtraceFailure errno => (_ptrace_error errno self, Running)
  | Exited code cpu wall mem =>
      (record_exit code (publish cpu wall mem self), ExitedWith code)
  end.

(** Modelled from the spec: once the monitor has terminated the tracee it
    does nothing to it any more; the only stop it still acts on is the exit
    of the child, which records the return code and ends the loop. *)
Fixpoint await_exit (stops : list stop) (self : TracedPopen) : TracedPopen * option Z :=
  match stops with
  | [] => (self, None)
  | Exited code cpu wall mem :: _ =>
      (record_exit code (publish cpu wall mem self), Some code)
  | _ :: stops' => await_exit stops' self
  end.

(** [self._monitor()]: the loop over the stops; [None] when the stops seen
    so far do not include the exit of the child. *)
Fixpoint _monitor (stops : list stop) (self : TracedPopen) : TracedPopen * option Z :=
  match stops with
  | [] => (self, None)
  | s :: stops' =>
      match monitor_step s self with
      | (self, ExitedWith code) => (self, Some code)
      | (self, Killed) => await_exit stops' self
      | (self, Running) => _monitor stops' self
      end
  end.

(** *** The worker thread *)

(** The [finally] block of [_run_process] before the event, lines 304-309. *)
Definition close_child_ends (self : TracedPopen) : TracedPopen :=
  let st := streams (settings self) in
  let self := if stdin_needs_close st then perform (Close (_child_stdin st)) self else self in
  let self := if stdout_needs_close st then perform (Close (_child_stdout st)) self else self in
  if stderr_needs_close st then perform (Close (_child_stderr st)) self else self.

Definition set_pid (child : Z) (self : TracedPopen) : TracedPopen :=
  set_process
    {| pid := child; returncode := returncode (process self);
       execution_time := execution_time (process self);
       wall_clock_time := wall_clock_time (process self);
       max_memory := max_memory (process self);
       was_initialized := was_initialized (process self) |} self.

(** [_run_process] up to the end of its [try] statement, lines 297-311:
    the [except] clause runs before the [finally] clause. The boolean
    tells whether the function goes on (it returned from the [except]
    clause otherwise). *)
Definition spawn_phase (env : Environment) (self : TracedPopen) : TracedPopen * bool :=
  let self := perform Spawn self in
  match spawn_result env with
  | Raise e =>
      let self := set_spawn_error (Some (exc_class e)) self in
      let self := event_set Died self in
      let self := close_child_ends self in
      let self := event_set SpawnedOrErrored self in
      (self, false)
  | Ok child =>
      let self := set_pid child self in
      let self := close_child_ends self in
      let self := event_set SpawnedOrErrored self in
      (self, true)
  end.

(** The rest of [_run_process], lines 313-330; a failure of
    [oom_score_adj] is printed and ignored. The result is [None] as long as
    the monitor has not returned. *)
Definition monitor_phase (env : Environment) (self : TracedPopen) : TracedPopen * option Z :=
  let self := if FREEBSD then self else perform (OomScoreAdj (pid (process self))) self in
  match _monitor (stops env) self with
  | (self, Some code) =>
      let self :=
        if truthy (_time (settings self)) &&
           Qgtb (execution_time (process self)) (_time (settings self))
        then set_is_tle true self else self in
      (event_set Died self, Some code)
  | (self, None) => (self, None)
  end.

Definition _run_process (env : Environment) (self : TracedPopen) : TracedPopen * option Z :=
  match spawn_phase env self with
  | (self, true) => monitor_phase env self
  | (self, false) => (self, None)
  end.

(** *** The watchdog thread *)

(** [TracedPopen.kill] *)
Definition kill (killpg_fails : bool) (self : TracedPopen) : TracedPopen :=
  match returncode (process self) with
  | None =>
      match os_killpg killpg_fails (pid (process self)) SIGKILL self with
      | (self, Raise _) => perform PrintTraceback self
      | (self, Ok _) => self
      end
  | Some _ => self
  end.

(** The loop of [_shocker_thread], lines 342-351: each wake is a
    [self._died.wait(1)] that returned; the boolean tells whether the thread
    has finished. *)
Fixpoint shocker_loop (wakes : list wake) (self : TracedPopen) : TracedPopen * bool :=
  match wakes with
  | [] => (self, false)
  | w :: wakes' =>
      if wake_died w then (self, true)
      else
        let self := set_process (wake_process w) self in
        if Qgtb (execution_time (process self)) (_time (settings self)) ||
           Qgtb (wall_clock_time (process self)) (_wall_time (settings self))
        then
          let self := kill (wake_killpg_fails w) self in
          (set_is_tle true self, true)
        else
          match os_killpg (wake_killpg_fails w) (pid (process self)) wake_signal self with
          | (self, Raise _) => shocker_loop wakes' self
          | (self, Ok _) => shocker_loop wakes' self
          end
  end.

(** [_shocker_thread]: it first waits for [self._spawned_or_errored]. *)
Definition _shocker_thread (wakes : list wake) (self : TracedPopen) : TracedPopen * bool :=
  if _spawned_or_errored self then shocker_loop wakes self else (self, false).

(** *** The result flags *)

Definition is_ir (self : TracedPopen) : result bool :=
  match returncode (process self) with
  | Some code => Ok (0 <? code)
  | None => Raise (TypeError "'>' not supported between instances of 'NoneType' and 'int'")
  end.

Definition is_mle (self : TracedPopen) : pyvalue :=
  if _memory (settings self) =? 0 then PyInt (_memory (settings self))
  else PyBool (_memory (settings self) <? max_memory (process self)).

Definition is_ole (self : TracedPopen) : bool := _is_ole self.

Definition is_rte (self : TracedPopen) : bool :=
  match returncode (process self) with
  | None => true
  | Some code => code <? 0
  end.

Definition is_tle (self : TracedPopen) : bool := _is_tle self.

Definition mark_ole (self : TracedPopen) : TracedPopen := set_is_ole true self.

(** *** The constructor *)

(** One branch chain of [__init_streams]: the child end and whether it
    needs closing. *)
Definition init_stream (s : option stream) (pipe_child_end : Z) : Z * bool :=
  match s with
  | Some (SInt n) => if n =? PIPE then (pipe_child_end, true) else (n, false)
  | Some (SFile fileno) => (fileno, false)
  | None => (-1, false)
  end.

Definition __init_streams (a : InitArgs) (env : Environment) : Streams :=
  let i := init_stream (stdin a) (fst (stdin_pipe env)) in
  let o := init_stream (stdout a) (snd (stdout_pipe env)) in
  let e := init_stream (stderr a) (snd (stderr_pipe env)) in
  mk_streams (fst i) (snd i) (fst o) (snd o) (fst e) (snd e).

(** Lines 110-136 and 154-156 of [__init__]: the attributes before the
    policy is installed and the threads are started. *)
Definition new_object (a : InitArgs) (env : Environment) : TracedPopen :=
  {| settings :=
       {| use_seccomp := bool_decide (is_Some (security a)) && negb (avoid_seccomp a);
          _time := time a;
          _wall_time := match wall_time a with
                        | None => py_mul (time a) 3
                        | Some w => w
                        end;
          _cpu_time := if truthy (time a) then py_add (time a) 5 else 0%Q;
          _memory := memory a;
          _child_personality := personality a;
          _child_memory := memory a * 1024 + data_grace a * 1024;
          _child_address := if memory a =? 0 then 0
                            else memory a * 1024 + address_grace a * 1024;
          _nproc := nproc a;
          _fsize := fsize a;
          streams := __init_streams a env;
          _security := security a;
          _trace_syscalls := match security a with
                             | None => Some false
                             | Some _ => None
                             end |};
     policy := policy_init;
     _is_tle := false;
     _is_ole := false;
     _last_ptrace_errno := None;
     protection_fault := None;
     _died := false;
     _spawned_or_errored := false;
     _spawn_error := None;
     process := fresh_process env;
     debugger := fresh_debugger env;
     history := [] |}.

(** The object when the worker thread is started, lines 154-163, for a
    policy [p] that was installed without an exception. *)
Definition before_worker (a : InitArgs) (env : Environment) (p : Policy) : TracedPopen :=
  let self := set_policy p (new_object a env) in
  let self := if truthy (time a) then perform (ThreadStart Shocker) self else self in
  perform (ThreadStart Worker) self.

(** Lines 137-152: without a security map nothing is installed. *)
Definition init_policy (a : InitArgs) : result Policy :=
  match security a with
  | None => Ok policy_init
  | Some security => install_policy security policy_init
  end.

(** The environment in which the tracee has only made its first [k]
    stops so far. *)
Definition first_stops (k : nat) (env : Environment) : Environment :=
  {| fresh_process := fresh_process env; fresh_debugger := fresh_debugger env;
     stdin_pipe := stdin_pipe env; stdout_pipe := stdout_pipe env;
     stderr_pipe := stderr_pipe env; spawn_result := spawn_result env;
     stops := take k (stops env);
     resumed_after := resumed_after env; early_wakes := early_wakes env |}.

(** What the other threads do to the object between the moment the worker
    sets [spawned_or_errored] and the moment the caller of the constructor
    runs again. A worker whose spawn raised has returned. A watchdog that
    finds [died] set ends at once. *)
Definition until_resumed (a : InitArgs) (env : Environment) (spawned : bool)
    (self : TracedPopen) : TracedPopen :=
  match resumed_after env with
  | None => self
  | Some k =>
      let self := if spawned then fst (monitor_phase (first_stops k env) self) else self in
      if truthy (time a) && negb (_died self)
      then fst (_shocker_thread (early_wakes env) self)
      else self
  end.

(** [TracedPopen.__init__]. The caller blocks in
    [self._spawned_or_errored.wait()] until the worker has set the event;
    the worker goes on with [monitor_phase] on its own, so what the caller
    sees when it runs again is the object as [spawn_phase] and then
    [until_resumed] leave it. The result is that object and whether the
    constructor returned or raised. *)
Definition __init__ (a : InitArgs) (env : Environment) : TracedPopen * result unit :=
  match init_policy a with
  | Raise e => (new_object a env, Raise e)
  | Ok p =>
      let started := spawn_phase env (before_worker a env p) in
      let self := until_resumed a env (snd started) (fst started) in
      match _spawn_error self with
      | Some cls => (self, Raise (raise_class cls))
      | None => (self, Ok tt)
      end
  end.

(** *** Reading a history *)

(** The events set, in the order in which they were set. *)
Fixpoint events_set (h : list action) : list event :=
  match h with
  | [] => []
  | EventSet e :: h' => e :: events_set h'
  | _ :: h' => events_set h'
  end.

(** [e1] is set exactly once, and no [e2] is set before it. *)
Fixpoint set_once_and_first (e1 e2 : event) (es : list event) : bool :=
  match es with
  | [] => false
  | e :: es' =>
      if decide (e = e1) then bool_decide (e1 ∉ es')
      else if decide (e = e2) then false
      else set_once_and_first e1 e2 es'
  end.

End Supervisor.

(** ** A sample platform

    A small instance of the tables with the Linux numbers of five syscalls
    on x86-64 and ARM, on which the statements below are exercised. *)

Definition sample_translator (i index : nat) : list (option Z) :=
  match i, index with
  | 0%nat, 1%nat => [Some 0]           (* read *)
  | 0%nat, 3%nat => [Some 3]
  | 1%nat, 1%nat => [Some 2; None]     (* open *)
  | 1%nat, 3%nat => [Some 5]
  | 2%nat, 1%nat => [Some 60]          (* exit *)
  | 2%nat, 3%nat => [Some 1]
  | 3%nat, 1%nat => [Some 231]         (* exit_group *)
  | 3%nat, 3%nat => [Some 248]
  | 4%nat, 1%nat => [Some 39]          (* getpid *)
  | 4%nat, 3%nat => [Some 20]
  | _, _ => []
  end.

Definition sample_by_id (i : nat) : string :=
  match i with
  | 0%nat => "read"
  | 1%nat => "open"
  | 2%nat => "exit"
  | 3%nat => "exit_group"
  | _ => "getpid"
  end.

(** The names of a few error numbers of Linux. *)
Definition sample_errorcode (err : Z) : option string :=
  if err =? 1 then Some "EPERM"
  else if err =? 3 then Some "ESRCH"
  else if err =? 5 then Some "EIO"
  else if err =? 14 then Some "EFAULT"
  else None.

(** Well-formed UTF-8 (RFC 3629): one byte below 0x80, or a lead byte and
    its continuation bytes, without overlong forms, surrogates or code
    points above U+10FFFF. *)
Definition utf8_tail (b : N) : bool := ((0x80 <=? b) && (b <=? 0xBF))%N.

Fixpoint valid_utf8 (b : list N) : bool :=
  match b with
  | [] => true
  | b0 :: r =>
      if (b0 <? 0x80)%N then valid_utf8 r
      else if ((0xC2 <=? b0) && (b0 <=? 0xDF))%N then
        match r with
        | b1 :: r => utf8_tail b1 && valid_utf8 r
        | _ => false
        end
      else if ((0xE0 <=? b0) && (b0 <=? 0xEF))%N then
        match r with
        | b1 :: b2 :: r =>
            (if (b0 =? 0xE0)%N then ((0xA0 <=? b1) && (b1 <=? 0xBF))%N
             else if (b0 =? 0xED)%N then ((0x80 <=? b1) && (b1 <=? 0x9F))%N
             else utf8_tail b1) && utf8_tail b2 && valid_utf8 r
        | _ => false
        end
      else if ((0xF0 <=? b0) && (b0 <=? 0xF4))%N then
        match r with
        | b1 :: b2 :: b3 :: r =>
            (if (b0 =? 0xF0)%N then ((0x90 <=? b1) && (b1 <=? 0xBF))%N
             else if (b0 =? 0xF4)%N then ((0x80 <=? b1) && (b1 <=? 0x8F))%N
             else utf8_tail b1) && utf8_tail b2 && utf8_tail b3 && valid_utf8 r
        | _ => false
        end
      else false
  end.

(** A strict UTF-8 decoder. A [str] is represented by the [string] of the
    bytes of its UTF-8 encoding, so decoding well-formed bytes keeps them;
    anything else is a [UnicodeDecodeError], shown here with the codec and
    the bytes. *)
Definition sample_utf8text (b : list Byte.byte) : result string :=
  if valid_utf8 (map Byte.to_N b) then Ok (string_of_list_byte b)
  else Raise (mk_exn UnicodeDecodeError_class [AStr "utf-8"; ABytes b]).

Definition sample_cptbox : Cptbox := {|
  MAX_SYSCALL_NUMBER := 256;
  SUPPORTED_ABIS := [PTBOX_ABI_X64; PTBOX_ABI_ARM];
  NATIVE_ABI := PTBOX_ABI_X64;
  ALLOW := 1;
  DISALLOW := 0;
  _CALLBACK := 2;
  SYSCALL_COUNT := 5;
  translator := sample_translator;
  by_id := sample_by_id;
  sys_exit := 2;
  sys_exit_group := 3;
  sys_getpid := 4;
  sys_platform := "linux";
  errorcode := sample_errorcode;
  utf8text := sample_utf8text
|}.

Section Sample.
#[local] Existing Instance sample_cptbox.

(** A map that allows [read], guards [open] by a callback on its first
    argument, and allows [exit]. *)
Definition sample_security : gmap nat handler_value :=
  <[0%nat := HInt 1]> (<[1%nat := HCallable (fun d => uarg0 d =? 7)]> (<[2%nat := HInt 1]> ∅)).

Definition sample_policy : Policy :=
  match install_policy sample_security policy_init with
  | Ok p => p
  | Raise _ => policy_init
  end.

Definition sample_debugger (a : abi) (syscall : Z) : Debugger :=
  {| dbg_abi := a; dbg_syscall := syscall;
     uarg0 := 0; uarg1 := 0; uarg2 := 0; uarg3 := 0; uarg4 := 0; uarg5 := 0;
     dbg_memory := fun _ => None |}.

Definition sample_process : Process :=
  {| pid := 0; returncode := None; execution_time := 0%Q; wall_clock_time := 0%Q;
     max_memory := 0; was_initialized := false |}.

(** Two seconds of CPU time, 64 MiB, pipes on [stdin] and [stdout]. *)
Definition sample_args : InitArgs :=
  {| avoid_seccomp := false; security := Some sample_security; time := NInt 2;
     memory := 65536; stdin := Some (SInt PIPE); stdout := Some (SInt PIPE);
     stderr := None; nproc := 0; fsize := 0; address_grace := 4096; data_grace := 0;
     personality := 0; wall_time := None |}.

Definition sample_env (spawn : result Z) (stops : list stop) : Environment :=
  {| fresh_process := sample_process;
     fresh_debugger := sample_debugger PTBOX_ABI_INVALID (-1);
     stdin_pipe := (3, 4); stdout_pipe := (5, 6); stderr_pipe := (7, 8);
     spawn_result := spawn; stops := stops;
     resumed_after := None; early_wakes := [] |}.

(** [_spawn] raises: the executable cannot be run. *)
Definition failing_env : Environment :=
  sample_env (Raise (mk_exn (builtin "OSError") [AStr "No such file or directory"])) [].

(** The child runs, calls [read] and exits with code 0. *)
Definition running_env : Environment :=
  sample_env (Ok 4242)
    [SyscallEntry (sample_debugger PTBOX_ABI_X64 0); SyscallExit 0.5%Q 0.7%Q 1024;
     Exited 0 0.5%Q 0.8%Q 1024].

(** The tracee holds the string "hi" at address 0x1000. *)
Definition sample_memory (address : Z) : option Byte.byte :=
  if address =? 0x1000 then Some Byte.x68
  else if address =? 0x1001 then Some Byte.x69
  else if address =? 0x1002 then Some Byte.x00
  else None.

(** A 32-bit tracee stopped at [open]; the upper half of the 64-bit
    register that holds its first argument is not zero. *)
Definition sample_string_debugger : Debugger :=
  {| dbg_abi := PTBOX_ABI_X86; dbg_syscall := 5;
     uarg0 := 0x100001000; uarg1 := 0; uarg2 := 0; uarg3 := 0; uarg4 := 0; uarg5 := 0;
     dbg_memory := sample_memory |}.

(** A wake of the watchdog at which the child has used three seconds and
    has just exited with code 0: [returncode] is set, [died] is not yet. *)
Definition exited_wake : wake :=
  {| wake_died := false;
     wake_process := {| pid := 4242; returncode := Some 0; execution_time := 3%Q;
                        wall_clock_time := 3%Q; max_memory := 1024;
                        was_initialized := true |};
     wake_killpg_fails := false |}.

(** The same wake with the child still running. *)
Definition running_wake : wake :=
  {| wake_died := false;
     wake_process := {| pid := 4242; returncode := None; execution_time := 3%Q;
                        wall_clock_time := 3%Q; max_memory := 1024;
                        was_initialized := true |};
     wake_killpg_fails := false |}.

(** The handler of [open] is [None]. *)
Definition none_handler_args : InitArgs :=
  {| avoid_seccomp := false;
     security := Some (<[1%nat := HOther "NoneType"]> sample_security); time := NInt 2;
     memory := 65536; stdin := Some (SInt PIPE); stdout := Some (SInt PIPE);
     stderr := None; nproc := 0; fsize := 0; address_grace := 4096; data_grace := 0;
     personality := 0; wall_time := None |}.

(** The tracee's registers could not be read. *)
Definition unreadable_debugger : Debugger := sample_debugger PTBOX_ABI_X64 (-1).

(** The float 0.1: the binary64 number nearest to one tenth, which is what
    the literal denotes and what [1.0 / 10.0] gives. *)
Definition one_tenth : PrimFloat.float :=
  PrimFloat.div (float_of_literal 1) (float_of_literal 10).

(** A CPU limit of a tenth of a second, given as a float. *)
Definition tenth_args : InitArgs :=
  {| avoid_seccomp := false; security := Some sample_security; time := NFloat one_tenth;
     memory := 65536; stdin := Some (SInt PIPE); stdout := Some (SInt PIPE);
     stderr := None; nproc := 0; fsize := 0; address_grace := 4096; data_grace := 0;
     personality := 0; wall_time := None |}.

(** An ARM tracee whose syscall number register holds -251 when it stops. *)
Definition arm_negative_debugger : Debugger :=
  {| dbg_abi := PTBOX_ABI_ARM; dbg_syscall := -251;
     uarg0 := 7; uarg1 := 0; uarg2 := 0; uarg3 := 0; uarg4 := 0; uarg5 := 0;
     dbg_memory := fun _ => None |}.

(** The tracee holds the byte 0xFF and then a NUL at address 0x3000. *)
Definition undecodable_memory (address : Z) : option Byte.byte :=
  if address =? 0x3000 then Some Byte.xff
  else if address =? 0x3001 then Some Byte.x00
  else None.

Definition undecodable_debugger : Debugger :=
  {| dbg_abi := PTBOX_ABI_X64; dbg_syscall := 2;
     uarg0 := 0x3000; uarg1 := 0; uarg2 := 0; uarg3 := 0; uarg4 := 0; uarg5 := 0;
     dbg_memory := undecodable_memory |}.

(** [_spawn] raises a [UnicodeDecodeError], whose class cannot be called
    without arguments. *)
Definition undecodable_env : Environment :=
  sample_env
    (Raise (mk_exn UnicodeDecodeError_class
              [AStr "utf-8"; ABytes [Byte.xff]; AInt 0; AInt 1; AStr "invalid start byte"]))
    [].

(** The child of [running_env] has exited and a wake of the watchdog has
    passed by the time the caller of the constructor runs again. *)
Definition late_env : Environment :=
  {| fresh_process := sample_process;
     fresh_debugger := sample_debugger PTBOX_ABI_INVALID (-1);
     stdin_pipe := (3, 4); stdout_pipe := (5, 6); stderr_pipe := (7, 8);
     spawn_result := Ok 4242;
     stops := [SyscallEntry (sample_debugger PTBOX_ABI_X64 0); SyscallExit 0.5%Q 0.7%Q 1024;
               Exited 0 0.5%Q 0.8%Q 1024];
     resumed_after := Some 3%nat; early_wakes := [running_wake] |}.

(** The child of [running_env] asks for [getpid], which the sample map
    does not allow, before the caller of the constructor runs again. *)
Definition denied_env : Environment :=
  {| fresh_process := sample_process;
     fresh_debugger := sample_debugger PTBOX_ABI_INVALID (-1);
     stdin_pipe := (3, 4); stdout_pipe := (5, 6); stderr_pipe := (7, 8);
     spawn_result := Ok 4242;
     stops := [SyscallEntry (sample_debugger PTBOX_ABI_X64 39)];
     resumed_after := Some 1%nat; early_wakes := [] |}.

End Sample.

(** ** Waiting for the child, and readers of the tables and histories *)

(** The exit codes by which the child reports the stage of the spawn
    sequence that failed; constants of the extension module. *)
Class SpawnFailCodes := {
  PTBOX_SPAWN_FAIL_NO_NEW_PRIVS : Z;
  PTBOX_SPAWN_FAIL_SECCOMP : Z;
  PTBOX_SPAWN_FAIL_TRACEME : Z;
  PTBOX_SPAWN_FAIL_EXECVE : Z
}.

Definition RuntimeError (msg : string) : exn := mk_exn (builtin "RuntimeError") [AStr msg].

Definition yama_message : string :=
  "failed to ptrace child, check Yama config (https://www.kernel.org/doc/Documentation/security/Yama.txt, should be at most 1); if running in Docker, must run container with `--cap-add=SYS_PTRACE`".

Section Waiting.
Context `{SpawnFailCodes}.

(** [TracedPopen.wait]: [None] as long as [self._died.wait()] blocks. With
    a return code that is [None], [self.returncode >= 0] raises. *)
Definition wait (self : TracedPopen) : option (result (option Z)) :=
  if _died self then
    Some
      (if was_initialized (process self) then Ok (returncode (process self))
       else
         match returncode (process self) with
         | None =>
             Raise (TypeError "'>=' not supported between instances of 'NoneType' and 'int'")
         | Some code =>
             if code =? PTBOX_SPAWN_FAIL_NO_NEW_PRIVS then
               Raise (RuntimeError "failed to call prctl(PR_SET_NO_NEW_PRIVS)")
             else if code =? PTBOX_SPAWN_FAIL_SECCOMP then
               Raise (RuntimeError "failed to set up seccomp policy")
             else if code =? PTBOX_SPAWN_FAIL_TRACEME then
               Raise (RuntimeError yama_message)
             else if code =? PTBOX_SPAWN_FAIL_EXECVE then
               Raise (RuntimeError "failed to spawn child")
             else if 0 <=? code then
               Raise (RuntimeError
                        ("process failed to initialize with unknown exit code: " ++ pretty code))
             else Ok (Some code)
         end)
  else None.

(** One of the four codes of a failed spawn stage. *)
Definition spawn_fail_code (code : Z) : Prop :=
  code = PTBOX_SPAWN_FAIL_NO_NEW_PRIVS \/ code = PTBOX_SPAWN_FAIL_SECCOMP \/
  code = PTBOX_SPAWN_FAIL_TRACEME \/ code = PTBOX_SPAWN_FAIL_EXECVE.

End Waiting.

(** [TracedPopen.poll] *)
Definition poll (self : TracedPopen) : option Z := returncode (process self).

(** The descriptors closed, in the order in which they were closed. *)
Fixpoint closes (h : list action) : list Z :=
  match h with
  | [] => []
  | Close fd :: h' => fd :: closes h'
  | _ :: h' => closes h'
  end.

(** [self'] has the attributes that the constructor and the spawn set as
    they are on [self]: the settings, the policy, the stored spawn error and
    the event [spawned_or_errored]. *)
Definition same_setup (self self' : TracedPopen) : Prop :=
  settings self' = settings self /\ policy self' = policy self /\
  _spawn_error self' = _spawn_error self /\
  _spawned_or_errored self' = _spawned_or_errored self.

(** [stream == PIPE] *)
Definition is_pipe (s : option stream) : bool :=
  match s with
  | Some (SInt n) => n =? PIPE
  | _ => false
  end.

(** The child ends of the pipes that a constructor call creates. *)
Definition pipe_child_ends (a : InitArgs) (env : Environment) : list Z :=
  (if is_pipe (stdin a) then [fst (stdin_pipe env)] else []) ++
  (if is_pipe (stdout a) then [snd (stdout_pipe env)] else []) ++
  (if is_pipe (stderr a) then [snd (stderr_pipe env)] else []).

(** A handler that the constructor accepts. *)
Definition handler_accepted (v : handler_value) : Prop :=
  match v with
  | HInt _ | HCallable _ => True
  | HStr _ | HOther _ => False
  end.

(** At a wake the watchdog finds a limit exceeded. *)
Definition exceeded (s : Settings) (w : wake) : Prop :=
  (_time s < execution_time (wake_process w))%Q \/
  (_wall_time s < wall_clock_time (wake_process w))%Q.

Section Reachability.
Context `{Cptbox}.

(** The constructor's loop visits native number [call] of canonical
    syscall [i] in column [index] of the supported ABI [a]. *)
Definition visited (a : abi) (index i : nat) (call : Z) : Prop :=
  In a SUPPORTED_ABIS /\ _SYSCALL_INDICIES a = Some index /\
  (i < SYSCALL_COUNT)%nat /\ In (Some call) (translator i index).

(** Every supported ABI has a column in the translation table. *)
Definition supported_abis_valid : Prop :=
  forall a, In a SUPPORTED_ABIS -> _SYSCALL_INDICIES a <> None.

(** The signal that the watchdog sends at a wake below the limits. *)
Definition wake_action (w : wake) : action := Killpg (pid (wake_process w)) wake_signal.

End Reachability.

Definition sample_spawn_codes : SpawnFailCodes :=
  {| PTBOX_SPAWN_FAIL_NO_NEW_PRIVS := 202; PTBOX_SPAWN_FAIL_SECCOMP := 203;
     PTBOX_SPAWN_FAIL_TRACEME := 204; PTBOX_SPAWN_FAIL_EXECVE := 205 |}.

Section MoreSamples.
#[local] Existing Instance sample_cptbox.
#[local] Existing Instance sample_spawn_codes.

(** The child could not be executed: it exited with the code of the failed
    stage before it was initialised, and the worker has finished. *)
Definition execve_failed : TracedPopen :=
  let self := fst (_run_process running_env
                     (before_worker sample_args running_env sample_policy)) in
  set_process
    {| pid := 4242; returncode := Some 205; execution_time := 0%Q;
       wall_clock_time := 0%Q; max_memory := 0; was_initialized := false |} self.

(** The child was killed by SIGKILL after it was initialised. *)
Definition killed_child : TracedPopen :=
  set_process
    {| pid := 4242; returncode := Some (-9); execution_time := 3%Q;
       wall_clock_time := 3%Q; max_memory := 1024; was_initialized := true |}
    execve_failed.

(** A wake below the limits of [sample_args]. *)
Definition quiet_wake : wake :=
  {| wake_died := false;
     wake_process := {| pid := 4242; returncode := None; execution_time := 1%Q;
                        wall_clock_time := 1.5%Q; max_memory := 1024;
                        was_initialized := true |};
     wake_killpg_fails := true |}.

(** A 32-bit tracee stopped at [open] on x86-64's column is not in the
    sample table; this one is an ARM tracee stopped at [open]. *)
Definition arm_open_debugger : Debugger :=
  {| dbg_abi := PTBOX_ABI_ARM; dbg_syscall := 5;
     uarg0 := 7; uarg1 := 0; uarg2 := 0; uarg3 := 0; uarg4 := 0; uarg5 := 0;
     dbg_memory := sample_memory |}.

(** The whitelist of the sample map. *)
Definition sample_whitelist : list bool :=
  match _get_seccomp_whitelist (Some sample_security) with
  | Ok whitelist => whitelist
  | Raise _ => []
  end.

(** The handler of [open] is the string "allow". *)
Definition str_handler_security : gmap nat handler_value :=
  <[1%nat := HStr "allow"]> sample_security.

(** The callback that [sample_security] gives to [open]. *)
Definition sample_open_callback : Debugger -> bool := fun d => uarg0 d =? 7.

End MoreSamples.

(** * Properties *)

(** ** Loops and list indexing *)

Lemma bind_Ok_inv {A B} (r : result A) (k : A -> result B) (b : B) :
  bind r k = Ok b -> exists a, r = Ok a /\ k a = Ok b.
Proof. destruct r as [a|e]; simpl; [eauto | discriminate]. Qed.

(** An invariant of the loop body is an invariant of the loop. *)
Lemma for_each_inv {A S} (P : S -> Prop) (l : list A) (body : A -> S -> result S) :
  (forall x t t', In x l -> P t -> body x t = Ok t' -> P t') ->
  forall s s', P s -> for_each l body s = Ok s' -> P s'.
Proof.
  induction l as [|x l IH]; simpl; intros Hbody s s' Hs Hrun.
  - injection Hrun as <-. exact Hs.
  - apply bind_Ok_inv in Hrun as (t & Hx & Hrest).
    apply (IH (fun y u u' Hy => Hbody y u u' (or_intror Hy)) t s'); [|exact Hrest].
    apply (Hbody x s t); auto.
Qed.

(** A property that one iteration establishes and every iteration keeps
    holds when the loop ends; [P] is an invariant that both may use. *)
Lemma for_each_reach {A S} (P Q : S -> Prop) (l : list A) (body : A -> S -> result S) (x : A) :
  In x l ->
  (forall y t t', In y l -> P t -> body y t = Ok t' -> P t') ->
  (forall t t', P t -> body x t = Ok t' -> Q t') ->
  (forall y t t', In y l -> P t -> Q t -> body y t = Ok t' -> Q t') ->
  forall s s', P s -> for_each l body s = Ok s' -> Q s'.
Proof.
  induction l as [|y l IH]; simpl; intros Hin HP Hx HQ s s' Hs Hrun; [contradiction|].
  apply bind_Ok_inv in Hrun as (t & Hy & Hrest).
  assert (HPt : P t) by (apply (HP y s t); auto).
  destruct Hin as [->|Hin].
  - assert (HQt : Q t) by (apply (Hx s t); auto).
    apply (for_each_inv (fun u => P u /\ Q u) l body) with (s := t); auto.
    intros z u u' Hz [HPu HQu] Hstep. split.
    + apply (HP z u u'); auto.
    + apply (HQ z u u'); auto.
  - apply (IH Hin) with (s := t); auto.
    + intros z u u' Hz. apply HP. auto.
    + intros z u u' Hz. apply HQ. auto.
Qed.

(** A loop whose body cannot raise under the invariant does not raise. *)
Lemma for_each_total {A S} (P : S -> Prop) (l : list A) (body : A -> S -> result S) :
  (forall x t, In x l -> P t -> exists t', body x t = Ok t' /\ P t') ->
  forall s, P s -> exists s', for_each l body s = Ok s' /\ P s'.
Proof.
  induction l as [|x l IH]; simpl; intros Hbody s Hs; [eauto|].
  destruct (Hbody x s) as (t & Hx & Ht); auto.
  rewrite Hx. simpl. apply IH; auto.
Qed.

Lemma py_index_in_range (len : nat) (i : Z) :
  0 <= i < Z.of_nat len -> py_index len i = Some (Z.to_nat i).
Proof. intros Hi. unfold py_index. rewrite decide_True; auto. Qed.

Lemma py_index_outside (len : nat) (i : Z) :
  ~ (- Z.of_nat len <= i < Z.of_nat len) -> py_index len i = None.
Proof.
  intros Hi. unfold py_index.
  rewrite decide_False by lia. rewrite decide_False by lia. reflexivity.
Qed.

Lemma py_index_lt (len : nat) (i : Z) (k : nat) :
  py_index len i = Some k -> (k < len)%nat.
Proof.
  unfold py_index. repeat case_decide; intros [= <-]; lia.
Qed.

Lemma py_setitem_length {A} (l l' : list A) (i : Z) (x : A) :
  py_setitem l i x = Ok l' -> length l' = length l.
Proof.
  unfold py_setitem. destruct (py_index (length l) i); intros [= <-].
  apply length_insert.
Qed.

(** ** The policy table built by the constructor *)

Section PolicyProperties.
Context `{Cptbox}.
Variable security : gmap nat handler_value.

Lemma policy_init_sized : policy_sized policy_init.
Proof. split; intros a; simpl; apply length_replicate. Qed.

Lemma policy_init_traced : policy_traced security policy_init.
Proof.
  split; intros a k x Hk; simpl in Hk; apply lookup_replicate in Hk as [Hx _].
  - discriminate.
  - left. congruence.
Qed.

Lemma _handler_sized a call h p : policy_sized p -> policy_sized (_handler a call h p).
Proof.
  intros [Hc Hh]. unfold _handler. case_decide; [|split; auto].
  split; simpl; [exact Hc|]. intros b.
  destruct (decide (a = b)) as [->|Hab].
  - rewrite fn_lookup_insert, length_insert. apply Hh.
  - rewrite fn_lookup_insert_ne by exact Hab. apply Hh.
Qed.

Lemma install_call_sized a i call p p' :
  policy_sized p -> install_call security a i call p = Ok p' -> policy_sized p'.
Proof.
  intros Hp. unfold install_call. destruct call as [c|]; [|intros [= <-]; exact Hp].
  destruct (security_get security i) as [h|f|s|ty]; try discriminate.
  - intros [= <-]. apply _handler_sized, Hp.
  - intros Hrun. apply bind_Ok_inv in Hrun as (cbs & Hset & [= <-]).
    apply _handler_sized. destruct Hp as [Hc Hh]. split; simpl; [|exact Hh].
    intros b. destruct (decide (a = b)) as [->|Hab].
    + rewrite fn_lookup_insert. rewrite (py_setitem_length _ _ _ _ Hset). apply Hc.
    + rewrite fn_lookup_insert_ne by exact Hab. apply Hc.
Qed.

Lemma install_policy_sized p p' :
  policy_sized p -> install_policy security p = Ok p' -> policy_sized p'.
Proof.
  unfold install_policy. apply for_each_inv. intros a.
  intros t t' _. apply for_each_inv. intros i u u' _ Hu Hrun.
  apply bind_Ok_inv in Hrun as (calls & _ & Hrun). revert Hu Hrun.
  apply for_each_inv. intros call v v' _. apply install_call_sized.
Qed.

Lemma install_call_traced a index i c p p' :
  translator_wf -> _SYSCALL_INDICIES a = Some index -> (i < SYSCALL_COUNT)%nat ->
  In c (translator i index) ->
  policy_sized p /\ policy_traced security p -> install_call security a i c p = Ok p' ->
  policy_sized p' /\ policy_traced security p'.
Proof.
  intros Hwf Hidx Hi Hin [Hsz Htr] Hrun.
  split; [exact (install_call_sized a i c p p' Hsz Hrun)|].
  unfold install_call in Hrun. destruct c as [c|]; [|injection Hrun as <-; exact Htr].
  pose proof (Hwf i index c Hi Hin) as Hc.
  destruct Htr as [Hcb Hht].
  destruct (security_get security i) as [h|f|s|ty] eqn:Hget; try discriminate.
  - injection Hrun as <-. unfold _handler. rewrite decide_True by lia.
    split; simpl; [exact Hcb|]. intros b k h' Hk.
    destruct (decide (a = b)) as [->|Hab].
    + rewrite fn_lookup_insert in Hk.
      destruct (decide (Z.to_nat c = k)) as [<-|Hne].
      * rewrite list_lookup_insert_eq in Hk
          by (destruct Hsz as [_ Hh]; rewrite Hh; lia).
        injection Hk as <-. right. exists i, index. rewrite Z2Nat.id by lia. auto.
      * rewrite list_lookup_insert_ne in Hk by exact Hne. eauto.
    + rewrite fn_lookup_insert_ne in Hk by exact Hab. eauto.
  - apply bind_Ok_inv in Hrun as (cbs & Hset & [= <-]).
    unfold py_setitem in Hset. destruct Hsz as [Hlc Hlh].
    rewrite Hlc, py_index_in_range in Hset by lia. injection Hset as <-.
    unfold _handler. rewrite decide_True by lia. split; simpl.
    + intros b k g Hk. destruct (decide (a = b)) as [->|Hab].
      * rewrite fn_lookup_insert in Hk.
        destruct (decide (Z.to_nat c = k)) as [<-|Hne].
        -- rewrite list_lookup_insert_eq in Hk by (rewrite Hlc; lia).
           injection Hk as <-. exists i, index. rewrite Z2Nat.id by lia. auto.
        -- rewrite list_lookup_insert_ne in Hk by exact Hne. eauto.
      * rewrite fn_lookup_insert_ne in Hk by exact Hab. eauto.
    + intros b k h' Hk. destruct (decide (a = b)) as [->|Hab].
      * rewrite fn_lookup_insert in Hk.
        destruct (decide (Z.to_nat c = k)) as [<-|Hne].
        -- rewrite list_lookup_insert_eq in Hk by (rewrite Hlh; lia).
           injection Hk as <-. right. exists i, index. rewrite Z2Nat.id by lia.
           eauto 10.
        -- rewrite list_lookup_insert_ne in Hk by exact Hne. eauto.
      * rewrite fn_lookup_insert_ne in Hk by exact Hab. eauto.
Qed.

Lemma install_policy_traced p p' :
  translator_wf -> policy_sized p /\ policy_traced security p ->
  install_policy security p = Ok p' -> policy_sized p' /\ policy_traced security p'.
Proof.
  intros Hwf. unfold install_policy.
  apply (for_each_inv (fun q => policy_sized q /\ policy_traced security q)).
  intros a t t' _.
  apply (for_each_inv (fun q => policy_sized q /\ policy_traced security q)).
  intros i u u' Hi Hu Hrun.
  apply in_seq in Hi.
  apply bind_Ok_inv in Hrun as (calls & Hrow & Hrun).
  unfold translator_row in Hrow.
  destruct (_SYSCALL_INDICIES a) as [index|] eqn:Hidx; [|discriminate].
  injection Hrow as <-. revert Hu Hrun.
  apply (for_each_inv (fun q => policy_sized q /\ policy_traced security q)).
  intros call v v' Hcall.
  apply (install_call_traced a index i call); auto. lia.
Qed.

Lemma security_get_absent i :
  security !! i = None -> security_get security i = HInt DISALLOW.
Proof. intros Hi. unfold security_get. rewrite Hi. reflexivity. Qed.

Lemma _callback_out_of_range p d n :
  policy_sized p ->
  ~ (- Z.of_nat MAX_SYSCALL_NUMBER <= n < Z.of_nat MAX_SYSCALL_NUMBER) ->
  _callback p d n =
    if decide (dbg_abi d = PTBOX_ABI_ARM) then (0xF0000 <? n) && (n <? 0xF0006) else false.
Proof.
  intros [Hlc _] Hn. unfold _callback, py_getitem.
  rewrite Hlc, py_index_outside by exact Hn.
  destruct (decide (dbg_abi d = PTBOX_ABI_INVALID)) as [Hinv|_]; [|reflexivity].
  rewrite decide_False; [reflexivity | congruence].
Qed.

(** A negative number that Python accepts as an index reads the table from
    its end. *)
Lemma _callback_negative_index p d n :
  policy_sized p -> - Z.of_nat MAX_SYSCALL_NUMBER <= n < 0 ->
  _callback p d n = _callback p d (Z.of_nat MAX_SYSCALL_NUMBER + n).
Proof.
  intros [Hlc _] Hn. unfold _callback, py_getitem, py_index. rewrite Hlc.
  rewrite (decide_False (P := 0 <= n < _)) by lia.
  rewrite (decide_True (P := _ <= n < 0)) by lia.
  rewrite (decide_True (P := 0 <= _ + n < _)) by lia.
  destruct (lookup_lt_is_Some_2 (_callbacks p (dbg_abi d))
              (Z.to_nat (Z.of_nat MAX_SYSCALL_NUMBER + n))) as [x Hx];
    [rewrite Hlc; lia|].
  rewrite Hx. reflexivity.
Qed.

(** After the constructor has installed a security map: a canonical
    syscall without an entry gets the handler [DISALLOW], so a native number
    all of whose canonical syscalls are absent from the map has [DISALLOW] in
    the handler table and the verdict of [_callback] on it is [False]; and
    for every number on which indexing the callback table raises
    [IndexError], which are the numbers from [MAX_SYSCALL_NUMBER] on and
    those below [- MAX_SYSCALL_NUMBER], the verdict is [False], except on the
    ARM ABI for numbers strictly between 0xF0000 and 0xF0006, where it is
    [True] whatever the map says. *)
Theorem callback_default_deny_and_arm_window (p : Policy) :
  install_policy security policy_init = Ok p ->
  (forall i, security !! i = None -> security_get security i = HInt DISALLOW) /\
  (translator_wf ->
   forall a index call d,
     _SYSCALL_INDICIES a = Some index ->
     0 <= call < Z.of_nat MAX_SYSCALL_NUMBER ->
     (forall j, (j < SYSCALL_COUNT)%nat -> In (Some call) (translator j index) ->
        security !! j = None) ->
     handler_table p a !! Z.to_nat call = Some DISALLOW /\
     (dbg_abi d = a -> _callback p d call = false)) /\
  (forall d n,
     ~ (- Z.of_nat MAX_SYSCALL_NUMBER <= n < Z.of_nat MAX_SYSCALL_NUMBER) ->
     _callback p d n =
       if decide (dbg_abi d = PTBOX_ABI_ARM) then (0xF0000 <? n) && (n <? 0xF0006)
       else false).
Proof.
  intros Hrun. split; [exact security_get_absent|]. split.
  - intros Hwf a index call d Hidx Hcall Habsent.
    destruct (install_policy_traced policy_init p Hwf
                (conj policy_init_sized policy_init_traced) Hrun)
      as [[Hlc Hlh] [Hcb Hht]].
    assert (Hk : (Z.to_nat call < MAX_SYSCALL_NUMBER)%nat) by lia.
    split.
    + destruct (lookup_lt_is_Some_2 (handler_table p a) (Z.to_nat call)) as [h Hh];
        [rewrite Hlh; exact Hk|].
      rewrite Hh. f_equal.
      destruct (Hht a _ h Hh) as [->|(i & index' & Hidx' & Hi & Hin & Hsec)];
        [reflexivity|].
      rewrite Z2Nat.id in Hin by lia.
      assert (index' = index) as -> by congruence.
      rewrite (security_get_absent i (Habsent i Hi Hin)) in Hsec.
      destruct Hsec as [[= ->]|(f & Hf & _)]; [reflexivity | discriminate].
    + intros <-. unfold _callback, py_getitem.
      rewrite decide_False by (intros Hinv; rewrite Hinv in Hidx; discriminate).
      rewrite Hlc, py_index_in_range by exact Hcall.
      destruct (_callbacks p (dbg_abi d) !! Z.to_nat call) as [[f|]|] eqn:Hf;
        try reflexivity.
      * destruct (Hcb _ _ f Hf) as (i & index' & Hidx' & Hi & Hin & Hsec).
        rewrite Z2Nat.id in Hin by lia.
        assert (index' = index) as -> by congruence.
        rewrite (security_get_absent i (Habsent i Hi Hin)) in Hsec. discriminate.
      * apply lookup_ge_None in Hf. rewrite Hlc in Hf. lia.
  - intros d n. apply _callback_out_of_range.
    exact (install_policy_sized policy_init p policy_init_sized Hrun).
Qed.

(** C1. The verdict on a number outside the range of the table is not
    always [False]: [_callback] relies on the [IndexError] of the lookup,
    which a number from [MAX_SYSCALL_NUMBER] on raises, but a negative
    number down to [- MAX_SYSCALL_NUMBER] is an index that a Python list
    accepts, counted from its end. So after the constructor has installed a
    security map, the verdict on the negative number
    [k - MAX_SYSCALL_NUMBER] is the answer of the callback installed for
    native number [k], which is [True] whenever that callback allows the
    call. *)
Theorem callback_negative_number_reads_from_end (p : Policy) (d : Debugger) (k : nat)
    (f : Debugger -> bool) :
  install_policy security policy_init = Ok p ->
  dbg_abi d <> PTBOX_ABI_INVALID ->
  _callbacks p (dbg_abi d) !! k = Some (Some f) ->
  let n := Z.of_nat k - Z.of_nat MAX_SYSCALL_NUMBER in
  ~ (0 <= n < Z.of_nat MAX_SYSCALL_NUMBER) /\ _callback p d n = f d.
Proof.
  intros Hrun Habi Hk n.
  pose proof (install_policy_sized policy_init p policy_init_sized Hrun) as Hsized.
  assert (Hlt : (k < MAX_SYSCALL_NUMBER)%nat).
  { destruct Hsized as [Hlc _]. rewrite <- (Hlc (dbg_abi d)).
    apply lookup_lt_is_Some_1. eauto. }
  split; [subst n; lia|].
  rewrite (_callback_negative_index p d n Hsized) by (subst n; lia).
  replace (Z.of_nat MAX_SYSCALL_NUMBER + n) with (Z.of_nat k) by (subst n; lia).
  unfold _callback, py_getitem. rewrite decide_False by exact Habi.
  destruct Hsized as [Hlc _]. rewrite Hlc, py_index_in_range by lia.
  rewrite Nat2Z.id, Hk. reflexivity.
Qed.

End PolicyProperties.

(** ** The seccomp whitelist *)

Section WhitelistProperties.
Context `{Cptbox}.
Variable security : gmap nat handler_value.
Variable index : nat.
Hypothesis native_index : _SYSCALL_INDICIES NATIVE_ABI = Some index.
Hypothesis Hwf : translator_wf.
Hypothesis Hfun : translator_functional index.

Lemma whitelist_call_sound i call wl wl' :
  (i < SYSCALL_COUNT)%nat -> i <> sys_exit -> i <> sys_exit_group ->
  In call (translator i index) -> whitelist_sound security index wl ->
  whitelist_call (security_get security i) call wl = Ok wl' -> whitelist_sound security index wl'.
Proof.
  intros Hi Hne1 Hne2 Hin [Hlen Hwl]. unfold whitelist_call.
  destruct call as [c|]; [|intros [= <-]; split; auto].
  destruct (security_get security i) as [h|f|s|ty] eqn:Hget;
    try (intros [= <-]; split; auto).
  pose proof (Hwf i index c Hi Hin) as Hc.
  unfold py_setitem. rewrite Hlen, py_index_in_range by exact Hc. intros [= <-].
  split; [rewrite length_insert; exact Hlen|]. intros k Hk.
  destruct (decide (Z.to_nat c = k)) as [<-|Hne].
  - rewrite list_lookup_insert_eq in Hk by lia. injection Hk as Hh.
    apply Z.eqb_eq in Hh as ->. exists i. rewrite Z2Nat.id by lia.
    repeat split; auto.
  - rewrite list_lookup_insert_ne in Hk by exact Hne. auto.
Qed.

Lemma whitelist_call_total h call i wl :
  (i < SYSCALL_COUNT)%nat -> In call (translator i index) ->
  length wl = MAX_SYSCALL_NUMBER ->
  exists wl', whitelist_call h call wl = Ok wl' /\ length wl' = MAX_SYSCALL_NUMBER.
Proof.
  intros Hi Hin Hlen. unfold whitelist_call. destruct call as [c|]; [|eauto].
  destruct h; eauto.
  pose proof (Hwf i index c Hi Hin) as Hc.
  unfold py_setitem. rewrite Hlen, py_index_in_range by exact Hc.
  eexists. split; [reflexivity|]. rewrite length_insert. exact Hlen.
Qed.

(** Once the entry of an allowed number is set it stays set: another write
    to it is for the same canonical syscall. *)
Lemma whitelist_call_keeps n i j call wl wl' :
  allowed_by security index n i -> (j < SYSCALL_COUNT)%nat ->
  In call (translator j index) -> length wl = MAX_SYSCALL_NUMBER ->
  wl !! Z.to_nat n = Some true ->
  whitelist_call (security_get security j) call wl = Ok wl' ->
  wl' !! Z.to_nat n = Some true.
Proof.
  intros (Hi & _ & _ & Hn & Hallow) Hj Hin Hlen Hset. unfold whitelist_call.
  destruct call as [c|]; [|intros [= <-]; exact Hset].
  destruct (security_get security j) as [h|f|s|ty] eqn:Hget;
    try (intros [= <-]; exact Hset).
  pose proof (Hwf j index c Hj Hin) as Hc. pose proof (Hwf i index n Hi Hn) as Hn'.
  unfold py_setitem. rewrite Hlen, py_index_in_range by exact Hc. intros [= <-].
  destruct (decide (c = n)) as [->|Hne].
  - assert (j = i) as -> by (apply (Hfun j i n); auto).
    rewrite Hallow in Hget. injection Hget as <-.
    rewrite Z.eqb_refl. apply list_lookup_insert_eq. lia.
  - rewrite list_lookup_insert_ne by lia. exact Hset.
Qed.

Lemma whitelist_call_sets n i wl wl' :
  allowed_by security index n i -> length wl = MAX_SYSCALL_NUMBER ->
  whitelist_call (security_get security i) (Some n) wl = Ok wl' ->
  wl' !! Z.to_nat n = Some true.
Proof.
  intros (Hi & _ & _ & Hn & Hallow) Hlen. unfold whitelist_call. rewrite Hallow.
  pose proof (Hwf i index n Hi Hn) as Hn'.
  unfold py_setitem. rewrite Hlen, py_index_in_range by exact Hn'. intros [= <-].
  rewrite Z.eqb_refl. apply list_lookup_insert_eq. lia.
Qed.

Lemma whitelist_syscall_sound i wl wl' :
  (i < SYSCALL_COUNT)%nat -> whitelist_sound security index wl ->
  whitelist_syscall (Some security) (Some index) i wl = Ok wl' ->
  whitelist_sound security index wl'.
Proof.
  intros Hi Hwl. unfold whitelist_syscall.
  case_decide as Hexit; [intros [= <-]; exact Hwl|]. simpl.
  revert Hwl. apply for_each_inv. intros call u u' Hcall.
  apply (whitelist_call_sound i call); auto.
Qed.

Lemma whitelist_syscall_total i wl :
  (i < SYSCALL_COUNT)%nat -> length wl = MAX_SYSCALL_NUMBER ->
  exists wl', whitelist_syscall (Some security) (Some index) i wl = Ok wl' /\
              length wl' = MAX_SYSCALL_NUMBER.
Proof.
  intros Hi Hlen. unfold whitelist_syscall. case_decide; [eauto|]. simpl.
  apply (for_each_total (fun u => length u = MAX_SYSCALL_NUMBER)); [|exact Hlen].
  intros call u Hcall. apply (whitelist_call_total _ call i); auto.
Qed.

Lemma whitelist_syscall_keeps n i j wl wl' :
  allowed_by security index n i -> (j < SYSCALL_COUNT)%nat ->
  length wl = MAX_SYSCALL_NUMBER -> wl !! Z.to_nat n = Some true ->
  whitelist_syscall (Some security) (Some index) j wl = Ok wl' ->
  length wl' = MAX_SYSCALL_NUMBER /\ wl' !! Z.to_nat n = Some true.
Proof.
  intros Hallow Hj Hlen Hset. unfold whitelist_syscall.
  case_decide; [intros [= <-]; auto|]. simpl.
  apply (for_each_inv
           (fun u => length u = MAX_SYSCALL_NUMBER /\ u !! Z.to_nat n = Some true));
    [|auto].
  intros call u u' Hcall [Hu Hun] Hstep. split.
  - destruct (whitelist_call_total (security_get security j) call j u Hj Hcall Hu)
      as (u'' & Hstep' & Hlen'). congruence.
  - apply (whitelist_call_keeps n i j call u u'); auto.
Qed.

Lemma whitelist_syscall_sets n i wl wl' :
  allowed_by security index n i -> length wl = MAX_SYSCALL_NUMBER ->
  whitelist_syscall (Some security) (Some index) i wl = Ok wl' ->
  wl' !! Z.to_nat n = Some true.
Proof.
  intros Hallow Hlen. pose proof Hallow as (Hi & Hne1 & Hne2 & Hn & _).
  unfold whitelist_syscall. rewrite decide_False by tauto. simpl.
  apply (for_each_reach (fun u => length u = MAX_SYSCALL_NUMBER)
           (fun u => u !! Z.to_nat n = Some true) _ _ (Some n)); auto.
  - intros call u u' Hcall Hu Hstep.
    destruct (whitelist_call_total (security_get security i) call i u Hi Hcall Hu)
      as (u'' & Hstep' & Hlen'). congruence.
  - intros u u' Hu. apply (whitelist_call_sets n i); auto.
  - intros call u u' Hcall Hu Hun. apply (whitelist_call_keeps n i i call); auto.
Qed.

(** C2. The whitelist that [_get_seccomp_whitelist] builds from a security
    map has one entry per native number, and the entry of a number is [True]
    iff the canonical syscall it belongs to on the native ABI is not [exit]
    or [exit_group] and has the handler [ALLOW] in the map; the entries of
    the native numbers of [exit] and [exit_group] are [False] whatever the
    map holds. *)
Theorem seccomp_whitelist_allow_iff :
  exists whitelist,
    _get_seccomp_whitelist (Some security) = Ok whitelist /\
    length whitelist = MAX_SYSCALL_NUMBER /\
    (forall n, 0 <= n < Z.of_nat MAX_SYSCALL_NUMBER ->
       whitelist !! Z.to_nat n = Some true <->
       exists i, allowed_by security index n i) /\
    (forall i n, (i < SYSCALL_COUNT)%nat -> i = sys_exit \/ i = sys_exit_group ->
       In (Some n) (translator i index) -> whitelist !! Z.to_nat n = Some false).
Proof.
  unfold _get_seccomp_whitelist. rewrite native_index.
  destruct (for_each_total (fun u => length u = MAX_SYSCALL_NUMBER)
              (seq 0 SYSCALL_COUNT) (whitelist_syscall (Some security) (Some index)))
    with (s := replicate MAX_SYSCALL_NUMBER false) as (wl & Hrun & Hlen).
  { intros i u Hi. apply in_seq in Hi. apply whitelist_syscall_total. lia. }
  { apply length_replicate. }
  assert (Hsound : whitelist_sound security index wl).
  { revert Hrun. apply for_each_inv.
    - intros i u u' Hi. apply in_seq in Hi. apply whitelist_syscall_sound. lia.
    - split; [apply length_replicate|]. intros k Hk.
      apply lookup_replicate in Hk as [Hk _]. discriminate. }
  assert (Hiff : forall n, 0 <= n < Z.of_nat MAX_SYSCALL_NUMBER ->
            wl !! Z.to_nat n = Some true <-> exists i, allowed_by security index n i).
  { intros n Hn. split.
    - intros Hset. destruct Hsound as [_ Hs]. destruct (Hs _ Hset) as [i Hi].
      rewrite Z2Nat.id in Hi by lia. eauto.
    - intros [i Hallow]. pose proof Hallow as (Hi & _).
      revert Hrun.
      apply (for_each_reach (fun u => length u = MAX_SYSCALL_NUMBER)
               (fun u => u !! Z.to_nat n = Some true) _ _ i).
      + apply in_seq. lia.
      + intros j u u' Hj Hu Hstep. apply in_seq in Hj.
        destruct (whitelist_syscall_total j u) as (u'' & Hstep' & Hlen'');
          [lia | exact Hu | congruence].
      + intros u u' Hu. apply (whitelist_syscall_sets n i); auto.
      + intros j u u' Hj Hu Hun Hstep. apply in_seq in Hj.
        apply (whitelist_syscall_keeps n i j u u'); auto. lia.
      + apply length_replicate. }
  exists wl. repeat split; auto; try (apply Hiff; assumption).
  intros i n Hi Hexit Hin.
  pose proof (Hwf i index n Hi Hin) as Hn.
  destruct (lookup_lt_is_Some_2 wl (Z.to_nat n)) as [b Hb]; [lia|].
  destruct b; [|exact Hb].
  apply (Hiff n Hn) in Hb as (j & Hj & Hne1 & Hne2 & Hjn & _).
  assert (i = j) by (apply (Hfun i j n); auto). subst j. tauto.
Qed.

End WhitelistProperties.

(** ** Handlers that the constructor rejects *)

Lemma for_each_raises {A S} (l : list A) (body : A -> S -> result S) (x : A) :
  In x l -> (forall t, exists e, body x t = Raise e) ->
  forall s, exists e, for_each l body s = Raise e.
Proof.
  induction l as [|y l IH]; simpl; intros Hin Hx s; [contradiction|].
  destruct (body y s) as [t|e] eqn:Hy; simpl; [|eauto].
  destruct Hin as [->|Hin]; [|apply IH; auto].
  destruct (Hx s) as [e He]. congruence.
Qed.

Lemma for_each_raise_inv {A S} (R : exn -> Prop) (l : list A) (body : A -> S -> result S) :
  (forall x t e, In x l -> body x t = Raise e -> R e) ->
  forall s e, for_each l body s = Raise e -> R e.
Proof.
  induction l as [|y l IH]; simpl; intros Hbody s e Hrun; [discriminate|].
  destruct (body y s) as [t|e'] eqn:Hy; simpl in Hrun.
  - apply (IH (fun x u e0 Hx => Hbody x u e0 (or_intror Hx)) t e Hrun).
  - injection Hrun as <-. apply (Hbody y s e'); auto.
Qed.

Section ConstructorRejects.
Context `{Cptbox}.
Variable sec : gmap nat handler_value.

Lemma install_call_raise_inv a i call p e :
  (forall j s, security_get sec j <> HStr s) ->
  install_call sec a i call p = Raise e -> exc_type e <> "ValueError".
Proof.
  intros Hnostr. unfold install_call. destruct call as [c|]; [|discriminate].
  destruct (security_get sec i) as [h|f|s|ty] eqn:Hget.
  - discriminate.
  - unfold py_setitem. destruct (py_index _ c); simpl; [discriminate|].
    intros [= <-]. discriminate.
  - destruct (Hnostr i s Hget).
  - intros [= <-]. discriminate.
Qed.

Lemma install_policy_non_str_handler (a : abi) (index i : nat) (call : Z) (ty : string) :
  In a SUPPORTED_ABIS -> _SYSCALL_INDICIES a = Some index ->
  (i < SYSCALL_COUNT)%nat -> In (Some call) (translator i index) ->
  security_get sec i = HOther ty ->
  (forall j s, security_get sec j <> HStr s) ->
  exists e, install_policy sec policy_init = Raise e /\ exc_type e <> "ValueError".
Proof.
  intros Ha Hidx Hi Hcall Hbad Hnostr.
  destruct (for_each_raises SUPPORTED_ABIS
              (fun a p =>
                 let index := _SYSCALL_INDICIES a in
                 for_each (seq 0 SYSCALL_COUNT) (fun i p =>
                   calls <- translator_row i index ;;
                   for_each calls (install_call sec a i) p) p) a Ha)
    with (s := policy_init) as [e He].
  { intros t. simpl. rewrite Hidx.
    apply (for_each_raises _ _ i); [apply in_seq; lia|].
    intros u. simpl.
    apply (for_each_raises _ _ (Some call) Hcall).
    intros v. simpl. rewrite Hbad. eauto. }
  exists e. split; [exact He|].
  revert He. unfold install_policy.
  apply (for_each_raise_inv (fun e => exc_type e <> "ValueError")).
  intros b t e1 _.
  apply (for_each_raise_inv (fun e => exc_type e <> "ValueError")).
  intros j u e2 _ Hrun.
  destruct (translator_row j (_SYSCALL_INDICIES b)) as [calls|e3] eqn:Hrow; simpl in Hrun.
  - revert Hrun. apply (for_each_raise_inv (fun e => exc_type e <> "ValueError")).
    intros c v e4 _. apply install_call_raise_inv. exact Hnostr.
  - injection Hrun as <-. unfold translator_row in Hrow.
    destruct (_SYSCALL_INDICIES b); [discriminate|]. injection Hrow as <-. discriminate.
Qed.

(** C10. A handler of the security map that is neither an [int] nor
    callable makes the constructor raise before any thread is started or
    any child is spawned, but the exception is a [ValueError] only for a
    [str] handler: for any other object, [None] or a float say, appending
    the handler to the message fails first, and with no [str] handler in
    the map what the constructor raises is never a [ValueError]. *)
Theorem init_non_str_handler_not_ValueError (args : InitArgs) (env : Environment)
    (a : abi) (index i : nat) (call : Z) (ty : string) :
  security args = Some sec ->
  In a SUPPORTED_ABIS -> _SYSCALL_INDICIES a = Some index ->
  (i < SYSCALL_COUNT)%nat -> In (Some call) (translator i index) ->
  security_get sec i = HOther ty ->
  (forall j s, security_get sec j <> HStr s) ->
  exists e, snd (__init__ args env) = Raise e /\ exc_type e <> "ValueError" /\
            history (fst (__init__ args env)) = [].
Proof.
  intros Hsec Ha Hidx Hi Hcall Hbad Hnostr.
  destruct (install_policy_non_str_handler a index i call ty Ha Hidx Hi Hcall Hbad Hnostr)
    as (e & He & Hty).
  exists e. unfold __init__, init_policy. rewrite Hsec, He. auto.
Qed.

End ConstructorRejects.

(** ** The worker thread and the two events *)

Lemma events_set_app (h1 h2 : list action) :
  events_set (h1 ++ h2) = events_set h1 ++ events_set h2.
Proof.
  induction h1 as [|a h1 IH]; simpl; [reflexivity|].
  destruct a; simpl; rewrite IH; reflexivity.
Qed.

Section WorkerProperties.
Context `{Cptbox}.

(** An action that sets no event leaves the events of the history alone. *)
Lemma events_set_perform (a : action) (self : TracedPopen) :
  (forall e, a <> EventSet e) ->
  events_set (history (perform a self)) = events_set (history self).
Proof.
  intros Ha. simpl. rewrite events_set_app.
  destruct a; simpl; try apply app_nil_r. destruct (Ha e eq_refl).
Qed.

Lemma events_set_event_set (e : event) (self : TracedPopen) :
  events_set (history (event_set e self)) = events_set (history self) ++ [e].
Proof. destruct e; simpl; rewrite events_set_app; reflexivity. Qed.

Lemma events_set_close_child_ends (self : TracedPopen) :
  events_set (history (close_child_ends self)) = events_set (history self).
Proof.
  unfold close_child_ends.
  destruct (stdin_needs_close _), (stdout_needs_close _), (stderr_needs_close _);
    simpl; rewrite ?events_set_app; simpl; rewrite ?app_nil_r; reflexivity.
Qed.


Lemma events_set_protection_fault syscall is_update self :
  events_set (history (_protection_fault syscall is_update self)) =
  events_set (history self).
Proof.
  unfold _protection_fault. destruct (syscall =? -1); [|reflexivity].
  destruct (_last_ptrace_errno self) as [e|]; [destruct (errorcode e)|]; simpl;
    rewrite events_set_app; simpl; apply app_nil_r.
Qed.

(** The monitor sets neither event. *)
Lemma events_set_monitor_step (s : stop) (self : TracedPopen) :
  events_set (history (fst (monitor_step s self))) = events_set (history self).
Proof.
  destruct s as [d|cpu wall mem|sig|errno|code cpu wall mem]; unfold monitor_step.
  - destruct (dbg_syscall d =? -1); [|destruct (on_syscall _ d)]; cbn [fst];
      rewrite events_set_perform by discriminate;
      rewrite ?events_set_protection_fault; reflexivity.
  - cbn [fst]. rewrite events_set_perform by discriminate. reflexivity.
  - repeat case_decide; cbn [fst];
      rewrite !events_set_perform by discriminate; reflexivity.
  - reflexivity.
  - reflexivity.
Qed.

Lemma events_set_await_exit (stops : list stop) (self : TracedPopen) :
  events_set (history (fst (await_exit stops self))) = events_set (history self).
Proof.
  induction stops as [|s stops IH]; simpl; [reflexivity|].
  destruct s; try exact IH. reflexivity.
Qed.

Lemma events_set_monitor (stops : list stop) (self : TracedPopen) :
  events_set (history (fst (_monitor stops self))) = events_set (history self).
Proof.
  revert self. induction stops as [|s stops IH]; intros self; simpl; [reflexivity|].
  pose proof (events_set_monitor_step s self) as Hs.
  destruct (monitor_step s self) as [self' [| |code]]; simpl in *.
  - rewrite IH. exact Hs.
  - rewrite events_set_await_exit. exact Hs.
  - exact Hs.
Qed.

(** After a kill the monitor returns when the child's exit is among the
    stops still to come. *)
Lemma await_exit_returns (stops : list stop) (self : TracedPopen) :
  (exists code cpu wall mem, In (Exited code cpu wall mem) stops) ->
  exists code, snd (await_exit stops self) = Some code.
Proof.
  induction stops as [|s stops IH]; intros (code & cpu & wall & mem & Hin);
    simpl in *; [contradiction|].
  destruct Hin as [->|Hin]; [simpl; eauto|].
  destruct s; simpl; eauto 6.
Qed.

(** The monitor returns when the stops include the exit of the child. *)
Lemma _monitor_returns (stops : list stop) (self : TracedPopen) :
  (exists code cpu wall mem, In (Exited code cpu wall mem) stops) ->
  exists code, snd (_monitor stops self) = Some code.
Proof.
  revert self. induction stops as [|s stops IH]; intros self (code & cpu & wall & mem & Hin);
    simpl in *; [contradiction|].
  destruct (monitor_step s self) as [self' [| |code']] eqn:Hs; simpl; [| |eauto].
  - destruct Hin as [->|Hin]; [simpl in Hs; discriminate|].
    apply IH. eauto.
  - destruct Hin as [->|Hin]; [simpl in Hs; discriminate|].
    apply await_exit_returns. eauto.
Qed.

Lemma events_set_before_worker a env p :
  events_set (history (before_worker a env p)) = [].
Proof.
  unfold before_worker. destruct (truthy (time a)); reflexivity.
Qed.

Lemma events_set_monitor_phase env self :
  events_set (history (fst (monitor_phase env self))) =
  events_set (history self) ++
    match snd (monitor_phase env self) with
    | Some _ => [Died]
    | None => []
    end.
Proof.
  unfold monitor_phase.
  set (self1 := if FREEBSD then self else _).
  assert (H1 : events_set (history self1) = events_set (history self)).
  { subst self1. destruct FREEBSD; [reflexivity|].
    apply events_set_perform. discriminate. }
  pose proof (events_set_monitor (stops env) self1) as Hm.
  destruct (_monitor (stops env) self1) as [self2 [code|]]; cbn [fst snd] in *.
  - rewrite events_set_event_set. f_equal. rewrite <- H1, <- Hm.
    destruct (truthy _ && Qgtb _ _); reflexivity.
  - rewrite app_nil_r. congruence.
Qed.

Lemma spawn_phase_raise env self e :
  spawn_result env = Raise e ->
  spawn_phase env self =
    (event_set SpawnedOrErrored
       (close_child_ends (event_set Died (set_spawn_error (Some (exc_class e))
          (perform Spawn self)))), false).
Proof. intros He. unfold spawn_phase. rewrite He. reflexivity. Qed.

Lemma spawn_phase_ok env self child :
  spawn_result env = Ok child ->
  spawn_phase env self =
    (event_set SpawnedOrErrored (close_child_ends (set_pid child (perform Spawn self))),
     true).
Proof. intros He. unfold spawn_phase. rewrite He. reflexivity. Qed.

Lemma events_set_spawn_phase env self :
  events_set (history (fst (spawn_phase env self))) =
  events_set (history self) ++
    match spawn_result env with
    | Raise _ => [Died; SpawnedOrErrored]
    | Ok _ => [SpawnedOrErrored]
    end.
Proof.
  destruct (spawn_result env) as [child|e] eqn:Hspawn.
  - rewrite (spawn_phase_ok env self child Hspawn). cbn [fst].
    rewrite events_set_event_set, events_set_close_child_ends.
    simpl. rewrite events_set_app. simpl. rewrite app_nil_r. reflexivity.
  - rewrite (spawn_phase_raise env self e Hspawn). cbn [fst].
    rewrite events_set_event_set, events_set_close_child_ends, events_set_event_set.
    simpl. rewrite events_set_app. simpl. rewrite app_nil_r, <- app_assoc. reflexivity.
Qed.

(** The object that the caller of the constructor sees is the one the
    worker left when it set [spawned_or_errored], after what the other
    threads have done to it since. *)
Lemma __init___object a env p :
  init_policy a = Ok p ->
  fst (__init__ a env) =
    until_resumed a env (snd (spawn_phase env (before_worker a env p)))
      (fst (spawn_phase env (before_worker a env p))).
Proof.
  intros Hp. unfold __init__. rewrite Hp. cbn zeta.
  destruct (_spawn_error _); reflexivity.
Qed.



(** C3. In every run of the worker thread of a constructed supervisor
    [spawned_or_errored] is set exactly once. When the spawn succeeds it is
    set first and [died] is set after it, once the monitor has returned
    (which it does when the child exits). When the spawn raises, [died] is
    set first, in the exception handler, and [spawned_or_errored] after it,
    in the [finally] clause. *)
Theorem worker_events_order (a : InitArgs) (env : Environment) (p : Policy) :
  let run := _run_process env (before_worker a env p) in
  events_set (history (fst run)) =
    match spawn_result env with
    | Raise _ => [Died; SpawnedOrErrored]
    | Ok _ => SpawnedOrErrored :: match snd run with
                                  | Some _ => [Died]
                                  | None => []
                                  end
    end /\
  (forall child code cpu wall mem,
     spawn_result env = Ok child -> In (Exited code cpu wall mem) (stops env) ->
     events_set (history (fst run)) = [SpawnedOrErrored; Died]).
Proof.
  intros run.
  assert (Hrun : events_set (history (fst run)) =
                 match spawn_result env with
                 | Raise _ => [Died; SpawnedOrErrored]
                 | Ok _ => SpawnedOrErrored :: match snd run with
                                               | Some _ => [Died]
                                               | None => []
                                               end
                 end).
  { subst run. unfold _run_process.
    pose proof (events_set_spawn_phase env (before_worker a env p)) as Hs.
    rewrite events_set_before_worker in Hs. simpl in Hs.
    destruct (spawn_result env) as [child|e] eqn:Hspawn.
    - rewrite (spawn_phase_ok env _ child Hspawn) in *. cbn [fst] in Hs.
      rewrite events_set_monitor_phase, Hs. reflexivity.
    - rewrite (spawn_phase_raise env _ e Hspawn) in *. exact Hs. }
  split; [exact Hrun|].
  intros child code cpu wall mem Hspawn Hexit. rewrite Hrun, Hspawn.
  subst run. unfold _run_process. rewrite (spawn_phase_ok env _ child Hspawn).
  unfold monitor_phase.
  match goal with |- context [_monitor (stops env) ?s] =>
    destruct (_monitor_returns (stops env) s) as [code' Hcode]; [eauto 6|];
    destruct (_monitor (stops env) s) as [self' r]
  end.
  simpl in Hcode. subst r. reflexivity.
Qed.






End WorkerProperties.

(** ** What monitoring and the watchdog leave alone *)

Lemma same_setup_refl self : same_setup self self.
Proof. repeat split. Qed.

Lemma same_setup_trans s1 s2 s3 :
  same_setup s1 s2 -> same_setup s2 s3 -> same_setup s1 s3.
Proof.
  unfold same_setup. intros (H1 & H2 & H3 & H4) (H5 & H6 & H7 & H8).
  repeat split; congruence.
Qed.

Section SetupProperties.
Context `{Cptbox}.

Lemma same_setup_protection_fault syscall is_update self :
  same_setup self (_protection_fault syscall is_update self).
Proof.
  unfold _protection_fault. destruct (syscall =? -1); [|repeat split].
  destruct (_last_ptrace_errno self) as [e|]; [destruct (errorcode e)|]; repeat split.
Qed.

Lemma same_setup_monitor_step s self : same_setup self (fst (monitor_step s self)).
Proof.
  destruct s as [d|cpu wall mem|sig|errno|code cpu wall mem]; unfold monitor_step.
  - destruct (dbg_syscall d =? -1); [|destruct (on_syscall _ d)]; cbn [fst].
    + apply (same_setup_trans _ (_protection_fault (-1) false (set_debugger d self)));
        [|repeat split].
      apply (same_setup_trans _ (set_debugger d self)); [repeat split|].
      apply same_setup_protection_fault.
    + repeat split.
    + apply (same_setup_trans _
               (_protection_fault (dbg_syscall d) false (set_debugger d self)));
        [|repeat split].
      apply (same_setup_trans _ (set_debugger d self)); [repeat split|].
      apply same_setup_protection_fault.
  - repeat split.
  - repeat case_decide; repeat split.
  - repeat split.
  - repeat split.
Qed.

Lemma same_setup_await_exit stops self : same_setup self (fst (await_exit stops self)).
Proof.
  induction stops as [|s stops IH]; simpl; [apply same_setup_refl|].
  destruct s; try exact IH. repeat split.
Qed.

Lemma same_setup_monitor stops self : same_setup self (fst (_monitor stops self)).
Proof.
  revert self. induction stops as [|s stops IH]; intros self; simpl;
    [apply same_setup_refl|].
  pose proof (same_setup_monitor_step s self) as Hs.
  destruct (monitor_step s self) as [self' [| |code]]; cbn [fst] in *.
  - apply (same_setup_trans _ self'); [exact Hs | apply IH].
  - apply (same_setup_trans _ self'); [exact Hs | apply same_setup_await_exit].
  - exact Hs.
Qed.

Lemma same_setup_monitor_phase env self : same_setup self (fst (monitor_phase env self)).
Proof.
  unfold monitor_phase.
  set (self1 := if FREEBSD then self else _).
  assert (H1 : same_setup self self1) by (subst self1; destruct FREEBSD; repeat split).
  pose proof (same_setup_monitor (stops env) self1) as Hm.
  destruct (_monitor (stops env) self1) as [self2 [code|]]; cbn [fst] in *.
  - apply (same_setup_trans _ self2); [apply (same_setup_trans _ self1); assumption|].
    destruct (truthy _ && Qgtb _ _); repeat split.
  - apply (same_setup_trans _ self1); assumption.
Qed.

Lemma same_setup_kill fails self : same_setup self (kill fails self).
Proof.
  unfold kill. destruct (returncode (process self)); [|unfold os_killpg; destruct fails];
    repeat split.
Qed.

Lemma same_setup_shocker_loop wakes self : same_setup self (fst (shocker_loop wakes self)).
Proof.
  revert self. induction wakes as [|w wakes IH]; intros self; cbn [shocker_loop];
    [apply same_setup_refl|].
  destruct (wake_died w); [apply same_setup_refl|].
  cbn [process set_process settings].
  destruct (Qgtb _ _ || Qgtb _ _); cbn [fst].
  - apply (same_setup_trans _ (kill (wake_killpg_fails w) (set_process (wake_process w) self)));
      [|repeat split].
    apply (same_setup_trans _ (set_process (wake_process w) self)); [repeat split|].
    apply same_setup_kill.
  - unfold os_killpg. destruct (wake_killpg_fails w);
      (eapply same_setup_trans; [|apply IH]); repeat split.
Qed.

Lemma same_setup_until_resumed a env spawned self :
  same_setup self (until_resumed a env spawned self).
Proof.
  unfold until_resumed. destruct (resumed_after env) as [k|]; [|apply same_setup_refl].
  set (self1 := if spawned then _ else self).
  assert (H1 : same_setup self self1).
  { subst self1. destruct spawned; [apply same_setup_monitor_phase | apply same_setup_refl]. }
  clearbody self1.
  destruct (truthy (time a) && negb (_died self1)); [|exact H1].
  apply (same_setup_trans _ self1); [exact H1|].
  unfold _shocker_thread. destruct (_spawned_or_errored self1);
    [apply same_setup_shocker_loop | apply same_setup_refl].
Qed.

(** Whatever the schedule, the caller of the constructor gets an object
    with the settings, the policy, the spawn error and the event as the
    worker left them when it set [spawned_or_errored]. *)
Lemma __init___setup a env p :
  init_policy a = Ok p ->
  same_setup (fst (spawn_phase env (before_worker a env p))) (fst (__init__ a env)).
Proof.
  intros Hp. rewrite (__init___object a env p Hp). apply same_setup_until_resumed.
Qed.

End SetupProperties.

(** ** Protection faults, the watchdog, limits and flags *)

Lemma Qgtb_lt (a b : Q) : Qgtb a b = true <-> (b < a)%Q.
Proof.
  unfold Qgtb. rewrite negb_true_iff. split.
  - intros Hle. apply Qnot_le_lt. intros Hab.
    apply Qle_bool_iff in Hab. congruence.
  - intros Hlt. destruct (Qle_bool a b) eqn:Hle; [|reflexivity].
    apply Qle_bool_iff in Hle. destruct (Qlt_not_le _ _ Hlt Hle).
Qed.

Lemma truthy_nonzero (q : Q) : truthy q = true <-> ~ (q == 0)%Q.
Proof.
  unfold truthy. rewrite negb_true_iff. split.
  - intros Hq Heq. apply Qeq_bool_iff in Heq. congruence.
  - intros Hq. destruct (Qeq_bool q 0) eqn:Heq; [|reflexivity].
    apply Qeq_bool_iff in Heq. destruct (Hq Heq).
Qed.

Section SupervisorProperties.
Context `{Cptbox}.

(** Waiting for the exit after a kill does nothing to the tracee. *)
Lemma await_exit_keeps (stops : list stop) (self : TracedPopen) :
  history (fst (await_exit stops self)) = history self /\
  protection_fault (fst (await_exit stops self)) = protection_fault self /\
  _is_tle (fst (await_exit stops self)) = _is_tle self.
Proof.
  induction stops as [|s stops IH]; simpl; [auto|].
  destruct s; try exact IH. simpl. auto.
Qed.

(** C4. When the monitor sees a syscall reported as -1, and the last
    ptrace error number is [None] or a number that has a name, it logs the
    error number, records the protection fault
    [(-1, "ptrace fail", [0] * 6, None)] (the fourth component is [None],
    the error number is only logged) and terminates the tracee; whatever
    stops follow, it does nothing more: the tracee is never continued.
    [_protection_fault] records that tuple for -1 whatever [is_update]
    is. *)
Theorem ptrace_failure_recorded_and_fatal (self : TracedPopen) (d : Debugger)
    (rest : list stop) :
  dbg_syscall d = -1 ->
  (forall err, _last_ptrace_errno self = Some err -> errorcode err <> None) ->
  let r := _monitor (SyscallEntry d :: rest) self in
  protection_fault (fst r) = Some (-1, "ptrace fail", [0; 0; 0; 0; 0; 0], None) /\
  history (fst r) =
    history self ++ [LogPtraceError (_last_ptrace_errno self); KillTracee] /\
  (forall is_update,
     protection_fault (_protection_fault (-1) is_update self) =
     Some (-1, "ptrace fail", [0; 0; 0; 0; 0; 0], None)).
Proof.
  intros Hd Hnamed r. subst r. cbn [_monitor]. unfold monitor_step. rewrite Hd.
  cbn [Z.eqb Pos.eqb].
  assert (Hpf : forall is_update s, _last_ptrace_errno s = _last_ptrace_errno self ->
            _protection_fault (-1) is_update s =
            set_protection_fault (Some (-1, "ptrace fail", replicate 6 0, None))
              (perform (LogPtraceError (_last_ptrace_errno self)) s)).
  { intros is_update s Hs. unfold _protection_fault. cbn [Z.eqb Pos.eqb]. rewrite Hs.
    destruct (_last_ptrace_errno self) as [err|] eqn:Herr; [|reflexivity].
    destruct (errorcode err) eqn:Hname; [reflexivity|].
    destruct (Hnamed err eq_refl Hname). }
  rewrite (Hpf false (set_debugger d self) eq_refl).
  destruct (await_exit_keeps rest
              (perform KillTracee
                 (set_protection_fault (Some (-1, "ptrace fail", replicate 6 0, None))
                    (perform (LogPtraceError (_last_ptrace_errno self))
                       (set_debugger d self))))) as (Hh & Hf & _).
  rewrite Hh, Hf. split; [reflexivity|]. split.
  - simpl. rewrite <- app_assoc. reflexivity.
  - intros is_update. rewrite (Hpf is_update self eq_refl). reflexivity.
Qed.

Lemma settings_close_child_ends self : settings (close_child_ends self) = settings self.
Proof.
  unfold close_child_ends.
  destruct (stdin_needs_close _), (stdout_needs_close _), (stderr_needs_close _);
    reflexivity.
Qed.

Lemma settings_spawn_phase env self : settings (fst (spawn_phase env self)) = settings self.
Proof.
  unfold spawn_phase. destruct (spawn_result env); cbn [fst];
    destruct SpawnedOrErrored; simpl; rewrite settings_close_child_ends; reflexivity.
Qed.

Lemma settings___init__ a env : settings (fst (__init__ a env)) = settings (new_object a env).
Proof.
  destruct (init_policy a) as [p|e] eqn:Hp;
    [|unfold __init__; rewrite Hp; reflexivity].
  destruct (__init___setup a env p Hp) as (Hs & _). rewrite Hs.
  rewrite settings_spawn_phase. unfold before_worker.
  destruct (truthy (time a)); reflexivity.
Qed.

(** C8. With an int CPU limit [time > 0] the wall limit is [3 * time]
    when no [wall_time] is given, and the CPU hard cap [_cpu_time] is
    [time + 5], exactly. With a float limit [time > 0] they are the results
    of the binary64 operations [time * 3.0] and [time + 5.0], which round.
    With [time] zero the hard cap is 0. *)
Theorem default_wall_limit_and_cpu_cap (a : InitArgs) (env : Environment) :
  let self := fst (__init__ a env) in
  (forall n : Z, time a = NInt n -> 0 < n ->
     (wall_time a = None -> (_wall_time (settings self) == 3 * time a)%Q) /\
     (_cpu_time (settings self) == time a + 5)%Q) /\
  (forall f, time a = NFloat f -> (0 < time a)%Q ->
     (wall_time a = None ->
      _wall_time (settings self) = float_value (PrimFloat.mul f (float_of_literal 3))) /\
     _cpu_time (settings self) = float_value (PrimFloat.add f (float_of_literal 5))) /\
  ((time a == 0)%Q -> _cpu_time (settings self) = 0%Q).
Proof.
  intros self. subst self. rewrite settings___init__.
  unfold new_object. cbn [settings _wall_time _cpu_time].
  assert (Hpos : (0 < time a)%Q -> truthy (time a) = true).
  { intros Hpos. apply truthy_nonzero. intros Hz. rewrite Hz in Hpos. discriminate. }
  split; [|split].
  - intros n Hn Hlt. rewrite Hpos by (rewrite Hn; unfold Qlt; simpl; lia).
    rewrite Hn. cbn [py_mul py_add num_value]. split.
    + intros ->. rewrite inject_Z_mult. apply Qmult_comm.
    + rewrite inject_Z_plus. apply Qeq_refl.
  - intros f Hf Hlt. rewrite (Hpos Hlt). rewrite Hf. cbn [py_mul py_add num_value].
    split; [|reflexivity]. intros ->. reflexivity.
  - intros Hz. destruct (truthy (time a)) eqn:Ht; [|reflexivity].
    apply truthy_nonzero in Ht. destruct (Ht Hz).
Qed.

(** C9. [is_mle] holds iff the memory limit is not zero and [max_memory]
    exceeds it; [is_ir] holds iff the return code is a positive number;
    [is_rte] holds iff the return code is [None] or negative. *)
Theorem result_flags (self : TracedPopen) :
  (py_bool (is_mle self) = true <->
   _memory (settings self) <> 0 /\ _memory (settings self) < max_memory (process self)) /\
  (is_ir self = Ok true <->
   exists code, returncode (process self) = Some code /\ 0 < code) /\
  (is_rte self = true <->
   returncode (process self) = None \/
   exists code, returncode (process self) = Some code /\ code < 0).
Proof.
  unfold is_mle, is_ir, is_rte. split; [|split].
  - destruct (_memory (settings self) =? 0) eqn:Hm; simpl.
    + rewrite Hm. apply Z.eqb_eq in Hm. split; [discriminate | tauto].
    + apply Z.eqb_neq in Hm. rewrite Z.ltb_lt. tauto.
  - destruct (returncode (process self)) as [code|].
    + split.
      * intros [= Hc]. apply Z.ltb_lt in Hc. eauto.
      * intros (c & [= <-] & Hc). apply Z.ltb_lt in Hc. rewrite Hc. reflexivity.
    + split; [discriminate | intros (c & Hc & _); discriminate].
  - destruct (returncode (process self)) as [code|].
    + rewrite Z.ltb_lt. split; [eauto|].
      intros [Hc|(c & [= <-] & Hc)]; [discriminate | exact Hc].
    + split; auto.
Qed.

Lemma shocker_started_iff a env p :
  In (ThreadStart Shocker) (history (before_worker a env p)) <-> ~ (time a == 0)%Q.
Proof.
  rewrite <- truthy_nonzero. unfold before_worker.
  destruct (truthy (time a)); simpl.
  - split; auto.
  - split; [intros [Hw|[]]; discriminate | discriminate].
Qed.

Lemma over_limit_iff (self : TracedPopen) (pr : Process) :
  Qgtb (execution_time pr) (_time (settings self)) ||
  Qgtb (wall_clock_time pr) (_wall_time (settings self)) = true <->
  (_time (settings self) < execution_time pr)%Q \/
  (_wall_time (settings self) < wall_clock_time pr)%Q.
Proof. rewrite orb_true_iff, !Qgtb_lt. reflexivity. Qed.

(** C7. The watchdog thread is started iff the CPU limit is not zero. A
    wake at which [died] is set ends it. At any other wake, if
    [execution_time] exceeds the CPU limit or [wall_clock_time] exceeds the
    wall limit, it calls [kill()], which sends SIGKILL to the process group
    when the return code is still [None] and sends nothing when the child
    has already exited (an [OSError] is printed and ignored), sets
    [_is_tle] and ends; otherwise it sends the wake signal to the process
    group and goes on in the same way whether or not the delivery failed.
    The wake signal is SIGWINCH on Linux and SIGSTOP on FreeBSD. The
    thread enters this loop once [spawned_or_errored] is set. *)
Theorem shocker_wake_behaviour :
  (forall a env p,
     In (ThreadStart Shocker) (history (before_worker a env p)) <-> ~ (time a == 0)%Q) /\
  (forall self w wakes, wake_died w = true -> shocker_loop (w :: wakes) self = (self, true)) /\
  (forall self w wakes,
     wake_died w = false ->
     (_time (settings self) < execution_time (wake_process w))%Q \/
     (_wall_time (settings self) < wall_clock_time (wake_process w))%Q ->
     let r := shocker_loop (w :: wakes) self in
     snd r = true /\ _is_tle (fst r) = true /\
     history (fst r) =
       history self ++
       match returncode (wake_process w) with
       | None => Killpg (pid (wake_process w)) SIGKILL ::
                 (if wake_killpg_fails w then [PrintTraceback] else [])
       | Some _ => []
       end) /\
  (forall self w wakes,
     wake_died w = false ->
     ~ ((_time (settings self) < execution_time (wake_process w))%Q \/
        (_wall_time (settings self) < wall_clock_time (wake_process w))%Q) ->
     shocker_loop (w :: wakes) self =
     shocker_loop wakes
       (perform (Killpg (pid (wake_process w)) wake_signal)
          (set_process (wake_process w) self))) /\
  (sys_platform = "linux" -> wake_signal = SIGWINCH) /\
  (forall rest : string, sys_platform = ("freebsd" ++ rest)%string -> wake_signal = SIGSTOP) /\
  (forall self wakes,
     _spawned_or_errored self = true -> _shocker_thread wakes self = shocker_loop wakes self).
Proof.
  split; [exact shocker_started_iff|].
  split; [intros self w wakes Hd; simpl; rewrite Hd; reflexivity|].
  split; [|split; [|split]].
  - intros self w wakes Hd Hover r. subst r.
    apply (over_limit_iff self) in Hover.
    cbn [shocker_loop]. rewrite Hd. cbn [process set_process settings]. rewrite Hover.
    unfold kill. cbn [process set_process].
    destruct (returncode (wake_process w)); cbn [fst snd].
    + simpl. rewrite app_nil_r. auto.
    + unfold os_killpg. destruct (wake_killpg_fails w); simpl;
        rewrite <- ?app_assoc; auto.
  - intros self w wakes Hd Hunder.
    cbn [shocker_loop]. rewrite Hd. cbn [process set_process settings].
    destruct (Qgtb _ _ || Qgtb _ _) eqn:Hover.
    + apply (over_limit_iff self) in Hover. destruct (Hunder Hover).
    + unfold os_killpg. destruct (wake_killpg_fails w); reflexivity.
  - intros Hp. unfold wake_signal. rewrite Hp. reflexivity.
  - split.
    + intros rest Hp. unfold wake_signal. rewrite Hp. simpl. destruct rest; reflexivity.
    + intros self wakes Hs. unfold _shocker_thread. rewrite Hs. reflexivity.
Qed.

End SupervisorProperties.

(** ** Reading strings from the tracee *)

Lemma Debugger_readstr_prefix (mem : Z -> option Byte.byte) (n : nat) :
  forall (address : Z) (size : nat),
    (n <= size)%nat -> string_bytes mem address n ->
    exists pre,
      length pre = n /\
      (forall k b, pre !! k = Some b -> mem (address + Z.of_nat k) = Some b) /\
      Debugger_readstr mem address size =
      option_map (app pre) (Debugger_readstr mem (address + Z.of_nat n) (size - n)).
Proof.
  induction n as [|n IH]; intros address size Hn Hbytes.
  - exists []. rewrite Z.add_0_r, Nat.sub_0_r. repeat split.
    + intros k b Hk. discriminate.
    + destruct (Debugger_readstr mem address size); reflexivity.
  - destruct size as [|size]; [lia|].
    destruct (Hbytes 0%nat) as (b & Hb & Hnz); [lia|].
    rewrite Z.add_0_r in Hb.
    destruct (IH (address + 1) size) as (pre & Hlen & Hpre & Hread); [lia| |].
    { intros k Hk. destruct (Hbytes (S k)) as (c & Hc & Hcz); [lia|].
      exists c. split; [|exact Hcz].
      rewrite <- Hc. f_equal. lia. }
    exists (b :: pre). split; [simpl; lia|]. split.
    + intros [|k] c Hk; simpl in Hk.
      * injection Hk as <-. rewrite Z.add_0_r. exact Hb.
      * rewrite <- (Hpre k c Hk). f_equal. lia.
    + cbn [Debugger_readstr]. rewrite Hb.
      destruct (Byte.eqb b Byte.x00) eqn:Hz;
        [apply Byte.byte_dec_bl in Hz; contradiction|].
      rewrite Hread.
      replace (address + 1 + Z.of_nat n) with (address + Z.of_nat (S n)) by lia.
      change (S size - S n)%nat with (size - n)%nat.
      destruct (Debugger_readstr mem (address + Z.of_nat (S n)) (size - n)); reflexivity.
Qed.

Section ReadstrProperties.
Context `{Cptbox}.

(** C6. [readstr(address, max_size)] reads from the address masked to its
    low 32 bits on an ABI with 32-bit addresses, and from the address
    itself otherwise. If a byte of the string cannot be read the result is
    [None]; if the first [max_size + 1] bytes hold no NUL the call raises
    [MaxLengthExceeded]; if a NUL follows [n <= max_size] bytes, those [n]
    bytes are decoded: when the decoder accepts them the text is returned,
    and when it raises, the call raises the decoder's exception. *)
Theorem readstr_masks_and_bounds (d : Debugger) (address : Z) (max_size : nat) :
  let a := if decide (_address_bits (dbg_abi d) = Some 32) then address mod 2 ^ 32
           else address in
  (forall n, (n <= max_size)%nat -> string_bytes (dbg_memory d) a n ->
     dbg_memory d (a + Z.of_nat n) = None ->
     readstr d address max_size = Ok None) /\
  (string_bytes (dbg_memory d) a (max_size + 1) ->
     exists read, length read = S max_size /\
       readstr d address max_size = Raise (MaxLengthExceeded read)) /\
  (forall n, (n <= max_size)%nat -> string_bytes (dbg_memory d) a n ->
     dbg_memory d (a + Z.of_nat n) = Some Byte.x00 ->
     exists read, length read = n /\
       (forall k b, read !! k = Some b -> dbg_memory d (a + Z.of_nat k) = Some b) /\
       (forall text, utf8text read = Ok text ->
          readstr d address max_size = Ok (Some text)) /\
       (forall e, utf8text read = Raise e -> readstr d address max_size = Raise e)).
Proof.
  intros a.
  assert (Hread : readstr d address max_size =
                  match Debugger_readstr (dbg_memory d) a (max_size + 1) with
                  | None => Ok None
                  | Some read =>
                      if (max_size <? length read)%nat then Raise (MaxLengthExceeded read)
                      else text <- utf8text read ;; Ok (Some text)
                  end).
  { unfold readstr, address_bits. subst a. case_decide; [|reflexivity].
    change 4294967295 with (Z.ones 32). rewrite Z.land_ones by lia. reflexivity. }
  rewrite Hread. split; [|split].
  - intros n Hn Hbytes Hnone.
    destruct (Debugger_readstr_prefix (dbg_memory d) n a (max_size + 1))
      as (pre & _ & _ & ->); [lia | exact Hbytes |].
    replace (max_size + 1 - n)%nat with (S (max_size - n)) by lia.
    simpl. rewrite Hnone. reflexivity.
  - intros Hbytes.
    destruct (Debugger_readstr_prefix (dbg_memory d) (max_size + 1) a (max_size + 1))
      as (pre & Hlen & _ & ->); [lia | exact Hbytes |].
    rewrite Nat.sub_diag. simpl. rewrite app_nil_r.
    exists pre. split; [lia|].
    replace (max_size <? length pre)%nat with true; [reflexivity|].
    symmetry. apply Nat.ltb_lt. lia.
  - intros n Hn Hbytes Hnul.
    destruct (Debugger_readstr_prefix (dbg_memory d) n a (max_size + 1))
      as (pre & Hlen & Hpre & ->); [lia | exact Hbytes |].
    replace (max_size + 1 - n)%nat with (S (max_size - n)) by lia.
    simpl. rewrite Hnul. simpl. rewrite app_nil_r.
    exists pre.
    replace (max_size <? length pre)%nat with false by (symmetry; apply Nat.ltb_ge; lia).
    split; [exact Hlen|]. split; [exact Hpre|].
    split; [intros text Htext | intros e He].
    + rewrite Htext. reflexivity.
    + rewrite He. reflexivity.
Qed.

End ReadstrProperties.

(** ** The sample platform *)

Section SampleProperties.
#[local] Existing Instance sample_cptbox.

Ltac sample_rows i index Hin :=
  destruct i as [|[|[|[|[|i]]]]]; try lia;
  destruct index as [|[|[|[|index]]]]; simpl in Hin;
  repeat (destruct Hin as [Hin|Hin]); try contradiction; try discriminate.

Lemma sample_translator_wf : translator_wf.
Proof.
  intros i index c Hi Hin. simpl in *.
  sample_rows i index Hin; injection Hin as <-; lia.
Qed.

Lemma sample_translator_functional index : translator_functional index.
Proof.
  intros i j c Hi Hj Hin Hin'. simpl in *.
  sample_rows i index Hin; injection Hin as <-;
    destruct j as [|[|[|[|[|j]]]]]; try lia; try reflexivity; simpl in Hin';
    repeat (destruct Hin' as [Hin'|Hin']); try contradiction; discriminate.
Qed.

Lemma sample_native_index : _SYSCALL_INDICIES NATIVE_ABI = Some 1%nat.
Proof. reflexivity. Qed.

Lemma sample_policy_installed :
  install_policy sample_security policy_init = Ok sample_policy.
Proof. vm_compute. reflexivity. Qed.

Lemma callback_default_deny_and_arm_window_witness :
  _callback sample_policy (sample_debugger PTBOX_ABI_ARM 0xF0002) 0xF0002 = true /\
  handler_table sample_policy PTBOX_ABI_X64 !! 39%nat = Some DISALLOW /\
  _callback sample_policy (sample_debugger PTBOX_ABI_X64 39) 39 = false.
Proof.
  destruct (callback_default_deny_and_arm_window sample_security sample_policy
              sample_policy_installed) as (_ & Hdeny & Hout).
  split.
  - rewrite Hout; [reflexivity | simpl; lia].
  - destruct (Hdeny sample_translator_wf PTBOX_ABI_X64 1%nat 39
                (sample_debugger PTBOX_ABI_X64 39)) as [Htable Hverdict];
      [reflexivity | simpl; lia | | split; [exact Htable | exact (Hverdict eq_refl)]].
    intros j Hj Hin. simpl in Hj, Hin.
    destruct j as [|[|[|[|[|j]]]]]; try lia; simpl in Hin;
      repeat (destruct Hin as [Hin|Hin]); try contradiction; try discriminate.
    reflexivity.
Defined.

Lemma seccomp_whitelist_allow_iff_witness :
  exists whitelist,
    _get_seccomp_whitelist (Some sample_security) = Ok whitelist /\
    whitelist !! 0%nat = Some true /\ whitelist !! 60%nat = Some false.
Proof.
  destruct (seccomp_whitelist_allow_iff sample_security 1%nat sample_native_index
              sample_translator_wf (sample_translator_functional 1%nat))
    as (wl & Hrun & _ & Hiff & Hexit).
  exists wl. split; [exact Hrun|]. split.
  - apply (Hiff 0); [simpl; lia|]. exists 0%nat.
    repeat split; simpl; auto; lia.
  - apply (Hexit 2%nat 60); simpl; auto.
Defined.

(** A [str] handler is reported as the constructor intends. *)
Example sample_str_handler :
  install_policy (<[1%nat := HStr "allow"]> sample_security) policy_init =
  Raise (ValueError "Handler not callable: allow").
Proof. vm_compute. reflexivity. Qed.

(** A handler that is [None] is not: the constructor raises a [TypeError]. *)
Example sample_none_handler :
  exists msg, snd (__init__ none_handler_args running_env) = Raise (TypeError msg).
Proof. eexists. vm_compute. reflexivity. Qed.

Lemma init_non_str_handler_not_ValueError_witness :
  exists e, snd (__init__ none_handler_args running_env) = Raise e /\
            exc_type e <> "ValueError" /\
            history (fst (__init__ none_handler_args running_env)) = [].
Proof.
  destruct (init_non_str_handler_not_ValueError
              (<[1%nat := HOther "NoneType"]> sample_security)
              none_handler_args running_env PTBOX_ABI_X64 1%nat 1%nat 2 "NoneType")
    as (e & He & Hty & Hnothing); [| | | | | | | exists e; auto].
  - reflexivity.
  - simpl. auto.
  - reflexivity.
  - simpl. lia.
  - simpl. auto.
  - reflexivity.
  - intros j s. unfold security_get, sample_security.
    rewrite !lookup_insert, lookup_empty. repeat case_decide; discriminate.
Defined.

Lemma sample_init_policy : init_policy sample_args = Ok sample_policy.
Proof. exact sample_policy_installed. Qed.

(** With a failing spawn [died] is set before [spawned_or_errored]. *)
Lemma spawned_before_died_counterexample :
  events_set (history (fst (__init__ sample_args failing_env))) = [Died; SpawnedOrErrored] /\
  set_once_and_first SpawnedOrErrored Died
    (events_set (history (fst (__init__ sample_args failing_env)))) = false.
Proof. split; vm_compute; reflexivity. Qed.

(** With a child that runs and exits the order is the expected one. *)
Example sample_running_order :
  set_once_and_first SpawnedOrErrored Died
    (events_set (history (fst (_run_process running_env
                                 (before_worker sample_args running_env sample_policy))))) =
  true.
Proof. vm_compute. reflexivity. Qed.

Lemma worker_events_order_witness :
  events_set (history (fst (_run_process running_env
                              (before_worker sample_args running_env sample_policy)))) =
  [SpawnedOrErrored; Died].
Proof.
  apply (proj2 (worker_events_order sample_args running_env sample_policy)
           4242 0 0.5%Q 0.8%Q 1024).
  - reflexivity.
  - simpl. auto.
Defined.



(** When [_spawn] raises a [UnicodeDecodeError] the constructor raises a
    [TypeError]: the stored class cannot be called without arguments. *)
Example sample_spawn_class_needs_arguments :
  _spawn_error (fst (__init__ sample_args undecodable_env)) =
    Some UnicodeDecodeError_class /\
  snd (__init__ sample_args undecodable_env) =
    Raise (TypeError "function takes exactly 5 arguments (0 given)").
Proof. split; vm_compute; reflexivity. Qed.

(** After [_ptrace_error(3)] (ESRCH), [_protection_fault(-1, ...)] records
    a fault that does not hold the error number. *)
Lemma ptrace_fail_errno_counterexample :
  let self := _protection_fault (-1) false
                (_ptrace_error 3 (before_worker sample_args running_env sample_policy)) in
  _last_ptrace_errno self = Some 3 /\
  protection_fault self = Some (-1, "ptrace fail", [0; 0; 0; 0; 0; 0], None) /\
  protection_fault self <>
  Some (-1, "ptrace fail", [0; 0; 0; 0; 0; 0], _last_ptrace_errno self).
Proof. split; [reflexivity|]. split; [reflexivity|]. vm_compute. discriminate. Qed.

Lemma ptrace_failure_recorded_and_fatal_witness :
  let self := _ptrace_error 3 (before_worker sample_args running_env sample_policy) in
  let r := _monitor [SyscallEntry unreadable_debugger;
                     SyscallEntry (sample_debugger PTBOX_ABI_X64 0);
                     SyscallExit 0.5%Q 0.7%Q 1024; Exited (-9) 0.5%Q 0.8%Q 1024] self in
  protection_fault (fst r) = Some (-1, "ptrace fail", [0; 0; 0; 0; 0; 0], None) /\
  history (fst r) = history self ++ [LogPtraceError (Some 3); KillTracee].
Proof.
  intros self r.
  destruct (ptrace_failure_recorded_and_fatal self unreadable_debugger
              [SyscallEntry (sample_debugger PTBOX_ABI_X64 0);
               SyscallExit 0.5%Q 0.7%Q 1024; Exited (-9) 0.5%Q 0.8%Q 1024]
              eq_refl) as (Hfault & Hhist & _).
  - intros err [= <-]. discriminate.
  - split; [exact Hfault | exact Hhist].
Defined.

(** The error number 0 has no name: [_protection_fault(-1, ...)] raises a
    [KeyError] and records no fault. *)
Example sample_unnamed_errno :
  let self := _protection_fault (-1) false
                (_ptrace_error 0 (before_worker sample_args running_env sample_policy)) in
  protection_fault self = None /\
  last (history self) = Some (Raised (KeyError 0)).
Proof. split; vm_compute; reflexivity. Qed.

Lemma readstr_masks_and_bounds_witness :
  readstr sample_string_debugger 0x100001000 8 = Ok (Some "hi"%string).
Proof.
  destruct (proj2 (proj2 (readstr_masks_and_bounds sample_string_debugger 0x100001000 8))
              2%nat) as (read & Hlen & Hpre & Hok & _).
  - lia.
  - intros k Hk. destruct k as [|[|k]]; [exists Byte.x68 | exists Byte.x69 | lia];
      (split; [reflexivity | discriminate]).
  - reflexivity.
  - apply Hok.
    destruct read as [|b0 [|b1 [|b2 read]]]; try discriminate.
    pose proof (Hpre 0%nat b0 eq_refl) as H0. pose proof (Hpre 1%nat b1 eq_refl) as H1.
    injection H0 as <-. injection H1 as <-. reflexivity.
Defined.

(** The byte 0xFF and then a NUL can be read, well within eight bytes, but
    the call returns no string: it raises a [UnicodeDecodeError]. *)
Lemma readstr_undecodable_counterexample :
  string_bytes (dbg_memory undecodable_debugger) 0x3000 1 /\
  dbg_memory undecodable_debugger (0x3000 + 1) = Some Byte.x00 /\
  (exists e, readstr undecodable_debugger 0x3000 8 = Raise e /\
             exc_type e = "UnicodeDecodeError"%string) /\
  (forall r, readstr undecodable_debugger 0x3000 8 <> Ok r) /\
  (forall read, readstr undecodable_debugger 0x3000 8 <> Raise (MaxLengthExceeded read)).
Proof.
  split.
  { intros k Hk. destruct k as [|k]; [|lia]. exists Byte.xff.
    split; [reflexivity | discriminate]. }
  split; [reflexivity|].
  assert (Hr : readstr undecodable_debugger 0x3000 8 =
               Raise (mk_exn UnicodeDecodeError_class [AStr "utf-8"; ABytes [Byte.xff]]))
    by (vm_compute; reflexivity).
  rewrite Hr. split; [eauto|]. split; intros; discriminate.
Qed.

(** What the call returns on the sample tracee. *)
Example sample_readstr :
  readstr sample_string_debugger 0x100001000 8 = Ok (Some "hi"%string) /\
  readstr sample_string_debugger 0x100001000 1 =
    Raise (MaxLengthExceeded [Byte.x68; Byte.x69]) /\
  readstr sample_string_debugger 0x100001001 8 = Ok (Some "i"%string) /\
  readstr sample_string_debugger 0x2000 8 = Ok None.
Proof. repeat split; vm_compute; reflexivity. Qed.

(** The child has exited but [died] is not set yet: the watchdog finds the
    CPU limit exceeded and sends no SIGKILL. *)
Lemma shocker_kill_counterexample :
  let self := fst (__init__ sample_args running_env) in
  (_time (settings self) < execution_time (wake_process exited_wake))%Q /\
  snd (shocker_loop [exited_wake] self) = true /\
  ~ In (Killpg 4242 SIGKILL) (history (fst (shocker_loop [exited_wake] self))).
Proof.
  split; [reflexivity|]. split; [reflexivity|].
  vm_compute. intros Hin.
  repeat (destruct Hin as [Hin|Hin]; [discriminate|]). exact Hin.
Qed.

Lemma shocker_wake_behaviour_witness :
  let self := fst (__init__ sample_args running_env) in
  In (ThreadStart Shocker) (history self) /\
  history (fst (shocker_loop [running_wake] self)) = history self ++ [Killpg 4242 SIGKILL] /\
  _is_tle (fst (shocker_loop [running_wake] self)) = true /\
  wake_signal = SIGWINCH.
Proof.
  destruct shocker_wake_behaviour as (Hstart & _ & Hover & _ & Hlinux & _ & _).
  intros self. split; [|split; [|split]].
  - assert (Hs : In (ThreadStart Shocker)
                   (history (before_worker sample_args running_env sample_policy))).
    { apply Hstart. simpl. discriminate. }
    vm_compute. vm_compute in Hs. tauto.
  - apply (Hover self running_wake []); [reflexivity | left; reflexivity].
  - apply (Hover self running_wake []); [reflexivity | left; reflexivity].
  - apply Hlinux. reflexivity.
Defined.

Lemma default_wall_limit_and_cpu_cap_witness :
  (_wall_time (settings (fst (__init__ sample_args running_env))) == 6)%Q /\
  (_cpu_time (settings (fst (__init__ sample_args running_env))) == 7)%Q.
Proof.
  destruct (default_wall_limit_and_cpu_cap sample_args running_env) as (Hint & _).
  destruct (Hint 2 eq_refl) as [Hwall Hcpu]; [lia|].
  split.
  - exact (Qeq_trans _ _ _ (Hwall eq_refl) eq_refl).
  - exact (Qeq_trans _ _ _ Hcpu eq_refl).
Defined.

(** With the float limit 0.1 the wall limit is 0.30000000000000004, not
    three times the limit, and the hard cap is not the limit plus five. *)
Lemma float_limit_counterexample :
  let self := fst (__init__ tenth_args running_env) in
  (0 < time tenth_args)%Q /\ wall_time tenth_args = None /\
  ~ (_wall_time (settings self) == 3 * time tenth_args)%Q /\
  ~ (_cpu_time (settings self) == time tenth_args + 5)%Q.
Proof.
  split; [vm_compute; reflexivity|]. split; [reflexivity|].
  split; apply Qeq_bool_neq; vm_compute; reflexivity.
Qed.

(** The two limits for 0.1: the mantissa and the exponent of the floats. *)
Example sample_float_limits :
  let self := fst (__init__ tenth_args running_env) in
  (_time (settings self) == 7205759403792794 # 2 ^ 56)%Q /\
  (_wall_time (settings self) == 5404319552844596 # 2 ^ 54)%Q /\
  (_cpu_time (settings self) == 5742089524897382 # 2 ^ 50)%Q.
Proof. repeat split; vm_compute; reflexivity. Qed.

End SampleProperties.

(** ** Naming syscalls *)

Lemma find_seq_first (f : nat -> bool) (len start i : nat) :
  (start <= i < start + len)%nat -> f i = true ->
  (forall j, (start <= j < i)%nat -> f j = false) ->
  find f (seq start len) = Some i.
Proof.
  revert start. induction len as [|len IH]; intros start Hi Hfi Hbefore; [lia|].
  simpl. destruct (decide (start = i)) as [->|Hne].
  - rewrite Hfi. reflexivity.
  - rewrite (Hbefore start) by lia. apply IH; [lia | exact Hfi |].
    intros j Hj. apply Hbefore. lia.
Qed.

Lemma find_seq_none (f : nat -> bool) (len start : nat) :
  (forall j, (start <= j < start + len)%nat -> f j = false) ->
  find f (seq start len) = None.
Proof.
  revert start. induction len as [|len IH]; intros start Hnone; [reflexivity|].
  simpl. rewrite (Hnone start) by lia. apply IH. intros j Hj. apply Hnone. lia.
Qed.

Section NamingProperties.
Context `{Cptbox}.

Lemma has_native_In (n : Z) (calls : list (option Z)) :
  has_native n calls = true <-> In (Some n) calls.
Proof.
  unfold has_native. rewrite existsb_exists. split.
  - intros ([c|] & Hin & Hc); [|discriminate].
    apply Z.eqb_eq in Hc. subst c. exact Hin.
  - intros Hin. exists (Some n). split; [exact Hin | apply Z.eqb_refl].
Qed.

Lemma has_native_not_In (n : Z) (calls : list (option Z)) :
  ~ In (Some n) calls -> has_native n calls = false.
Proof.
  intros Hn. destruct (has_native n calls) eqn:Hh; [|reflexivity].
  apply has_native_In in Hh. contradiction.
Qed.

(** The first row that holds the number gives the name. *)
Lemma get_syscall_name_first (d : Debugger) (index i : nat) (n : Z) :
  _SYSCALL_INDICIES (dbg_abi d) = Some index ->
  (i < SYSCALL_COUNT)%nat -> In (Some n) (translator i index) ->
  (forall j, (j < i)%nat -> ~ In (Some n) (translator j index)) ->
  get_syscall_name d n = by_id i.
Proof.
  intros Hidx Hi Hin Hfirst. unfold get_syscall_name. rewrite Hidx.
  rewrite (find_seq_first _ SYSCALL_COUNT 0 i); [reflexivity | lia | |].
  - apply has_native_In. exact Hin.
  - intros j Hj. apply has_native_not_In. apply Hfirst. lia.
Qed.

Lemma get_syscall_name_functional (d : Debugger) (index i : nat) (n : Z) :
  _SYSCALL_INDICIES (dbg_abi d) = Some index ->
  (i < SYSCALL_COUNT)%nat -> In (Some n) (translator i index) ->
  translator_functional index ->
  get_syscall_name d n = by_id i.
Proof.
  intros Hidx Hi Hin Hfun. apply (get_syscall_name_first d index); auto.
  intros j Hj Hjn. assert (j = i) by (apply (Hfun j i n); auto; lia). lia.
Qed.

(** X1. On a valid ABI the name of a native number is the name of the
    first canonical syscall whose row for that ABI holds the number; when
    a number belongs to one canonical syscall per column, naming undoes the
    translation: every native number of canonical syscall [i] is named
    [by_id i]. *)
Theorem syscall_name_of_native (d : Debugger) (index i : nat) (n : Z) :
  _SYSCALL_INDICIES (dbg_abi d) = Some index ->
  (i < SYSCALL_COUNT)%nat -> In (Some n) (translator i index) ->
  (forall j, (j < i)%nat -> ~ In (Some n) (translator j index)) \/
  translator_functional index ->
  get_syscall_name d n = by_id i.
Proof.
  intros Hidx Hi Hin [Hfirst|Hfun].
  - apply (get_syscall_name_first d index); auto.
  - apply (get_syscall_name_functional d index); auto.
Qed.

(** X2. When the registers could not be read the name is the fixed text
    ['failed to read registers'], whatever the number; on a valid ABI a
    number that no row of the table holds in that ABI's column is named
    ['unknown']. *)
Theorem syscall_name_unknown (d : Debugger) (n : Z) :
  (dbg_abi d = PTBOX_ABI_INVALID -> get_syscall_name d n = "failed to read registers") /\
  (forall index, _SYSCALL_INDICIES (dbg_abi d) = Some index ->
     (forall i, (i < SYSCALL_COUNT)%nat -> ~ In (Some n) (translator i index)) ->
     get_syscall_name d n = "unknown").
Proof.
  split.
  - intros Hinv. unfold get_syscall_name. rewrite Hinv. reflexivity.
  - intros index Hidx Hnone. unfold get_syscall_name. rewrite Hidx.
    rewrite find_seq_none; [reflexivity|].
    intros j Hj. apply has_native_not_In. apply Hnone. lia.
Qed.

(** X3. [noop_syscall_id] raises [ValueError] when the ABI is invalid;
    otherwise the number it returns is the first native number of [getpid]
    on the tracee's ABI, and [get_syscall_name] names it [getpid]. *)
Theorem noop_syscall_is_getpid (d : Debugger) :
  (dbg_abi d = PTBOX_ABI_INVALID ->
   noop_syscall_id d = Raise (ValueError "ABI is invalid")) /\
  (forall index n,
     _SYSCALL_INDICIES (dbg_abi d) = Some index ->
     noop_syscall_id d = Ok (Some n) ->
     (sys_getpid < SYSCALL_COUNT)%nat -> translator_functional index ->
     head (translator sys_getpid index) = Some (Some n) /\
     get_syscall_name d n = by_id sys_getpid).
Proof.
  split.
  - intros Hinv. unfold noop_syscall_id. rewrite Hinv. reflexivity.
  - intros index n Hidx Hnoop Hpid Hfun. unfold noop_syscall_id in Hnoop.
    rewrite Hidx in Hnoop.
    destruct (translator sys_getpid index) as [|c calls] eqn:Hrow; [discriminate|].
    injection Hnoop as ->. split; [reflexivity|].
    apply (get_syscall_name_functional d index); auto.
    rewrite Hrow. left. reflexivity.
Qed.

(** X4. For a denied syscall other than -1 whose number belongs to
    canonical syscall [i] on the tracee's ABI, [_protection_fault] records
    the number, the name [by_id i], the six unsigned arguments in order,
    and the last ptrace error number only when [is_update] is set; it
    performs no action and leaves the time-limit flag alone. *)
Theorem protection_fault_names_syscall (self : TracedPopen) (d : Debugger)
    (index i : nat) (is_update : bool) :
  dbg_syscall d <> -1 ->
  _SYSCALL_INDICIES (dbg_abi d) = Some index ->
  (i < SYSCALL_COUNT)%nat -> In (Some (dbg_syscall d)) (translator i index) ->
  translator_functional index ->
  let self' := _protection_fault (dbg_syscall d) is_update (set_debugger d self) in
  protection_fault self' =
    Some (dbg_syscall d, by_id i,
          [uarg0 d; uarg1 d; uarg2 d; uarg3 d; uarg4 d; uarg5 d],
          if is_update then _last_ptrace_errno self else None) /\
  history self' = history self /\ _is_tle self' = _is_tle self.
Proof.
  intros Hn Hidx Hi Hin Hfun self'. subst self'. unfold _protection_fault.
  apply Z.eqb_neq in Hn. rewrite Hn. simpl.
  rewrite (get_syscall_name_functional d index i (dbg_syscall d)); auto.
Qed.

End NamingProperties.

(** ** Callbacks that the constructor installs *)

Lemma for_each_raise_inv_P {A S} (P : S -> Prop) (R : exn -> Prop) (l : list A)
    (body : A -> S -> result S) :
  (forall x t t', In x l -> P t -> body x t = Ok t' -> P t') ->
  (forall x t e, In x l -> P t -> body x t = Raise e -> R e) ->
  forall s e, P s -> for_each l body s = Raise e -> R e.
Proof.
  induction l as [|y l IH]; simpl; intros HP HR s e Hs Hrun; [discriminate|].
  destruct (body y s) as [t|e'] eqn:Hy; simpl in Hrun.
  - apply (IH (fun x u u' Hx => HP x u u' (or_intror Hx))
              (fun x u e0 Hx => HR x u e0 (or_intror Hx)) t e); [|exact Hrun].
    apply (HP y s t); auto.
  - injection Hrun as <-. apply (HR y s e'); auto.
Qed.

Section CallbackProperties.
Context `{Cptbox}.
Variable sec : gmap nat handler_value.

Lemma _handler_callbacks a call h p : _callbacks (_handler a call h p) = _callbacks p.
Proof. unfold _handler. case_decide; reflexivity. Qed.

(** The three loops of the constructor, innermost last. *)
Lemma row_sized a j t t' :
  policy_sized t ->
  (calls <- translator_row j (_SYSCALL_INDICIES a) ;;
   for_each calls (install_call sec a j) t) = Ok t' ->
  policy_sized t'.
Proof.
  intros Ht Hrun. apply bind_Ok_inv in Hrun as (calls & _ & Hrun). revert Ht Hrun.
  apply for_each_inv. intros call v v' _. apply install_call_sized.
Qed.

Lemma abi_sized a t t' :
  policy_sized t ->
  for_each (seq 0 SYSCALL_COUNT)
    (fun i p => calls <- translator_row i (_SYSCALL_INDICIES a) ;;
                for_each calls (install_call sec a i) p) t = Ok t' ->
  policy_sized t'.
Proof. apply for_each_inv. intros j u u' _. apply row_sized. Qed.

Section OneCallback.
Variables (a : abi) (index i : nat) (call : Z) (f : Debugger -> bool).
Hypothesis Hwf : translator_wf.
Hypothesis Hfun : translator_functional index.
Hypothesis Hidx : _SYSCALL_INDICIES a = Some index.
Hypothesis Hi : (i < SYSCALL_COUNT)%nat.
Hypothesis Hin : In (Some call) (translator i index).
Hypothesis Hf : security_get sec i = HCallable f.

(** Once the callback of [call] is in its slot no later iteration
    replaces it by another. *)
Lemma install_call_keeps_callback a' j c p p' :
  (j < SYSCALL_COUNT)%nat ->
  (forall index', _SYSCALL_INDICIES a' = Some index' -> In c (translator j index')) ->
  policy_sized p ->
  _callbacks p a !! Z.to_nat call = Some (Some f) ->
  install_call sec a' j c p = Ok p' ->
  _callbacks p' a !! Z.to_nat call = Some (Some f).
Proof.
  intros Hj Hc [Hlc _] Hslot. unfold install_call.
  destruct c as [c|]; [|intros [= <-]; exact Hslot].
  destruct (security_get sec j) as [h|g|s|ty] eqn:Hg; try discriminate.
  - intros [= <-]. rewrite _handler_callbacks. exact Hslot.
  - intros Hrun. apply bind_Ok_inv in Hrun as (cbs & Hset & [= <-]).
    rewrite _handler_callbacks. simpl.
    destruct (decide (a' = a)) as [->|Hne];
      [|rewrite fn_lookup_insert_ne by exact Hne; exact Hslot].
    rewrite fn_lookup_insert.
    pose proof (Hwf j index c Hj (Hc index Hidx)) as Hcr.
    pose proof (Hwf i index call Hi Hin) as Hcallr.
    unfold py_setitem in Hset. rewrite Hlc, py_index_in_range in Hset by exact Hcr.
    injection Hset as <-.
    destruct (decide (c = call)) as [->|Hcne].
    + assert (j = i) as -> by (apply (Hfun j i call); auto).
      rewrite Hf in Hg. injection Hg as <-.
      apply list_lookup_insert_eq. rewrite Hlc. lia.
    + rewrite list_lookup_insert_ne by lia. exact Hslot.
Qed.

Lemma install_call_sets_callback p p' :
  policy_sized p -> install_call sec a i (Some call) p = Ok p' ->
  _callbacks p' a !! Z.to_nat call = Some (Some f).
Proof.
  intros [Hlc _]. unfold install_call. rewrite Hf. intros Hrun.
  apply bind_Ok_inv in Hrun as (cbs & Hset & [= <-]).
  rewrite _handler_callbacks. simpl. rewrite fn_lookup_insert.
  pose proof (Hwf i index call Hi Hin) as Hcallr.
  unfold py_setitem in Hset. rewrite Hlc, py_index_in_range in Hset by exact Hcallr.
  injection Hset as <-. apply list_lookup_insert_eq. rewrite Hlc. lia.
Qed.

Lemma row_keeps_callback a' j t t' :
  (j < SYSCALL_COUNT)%nat -> policy_sized t ->
  _callbacks t a !! Z.to_nat call = Some (Some f) ->
  (calls <- translator_row j (_SYSCALL_INDICIES a') ;;
   for_each calls (install_call sec a' j) t) = Ok t' ->
  _callbacks t' a !! Z.to_nat call = Some (Some f).
Proof.
  intros Hj Ht Hslot Hrun. apply bind_Ok_inv in Hrun as (calls & Hrow & Hrun).
  unfold translator_row in Hrow.
  destruct (_SYSCALL_INDICIES a') as [index'|] eqn:Hidx'; [|discriminate].
  injection Hrow as <-.
  apply (for_each_inv
           (fun q => policy_sized q /\ _callbacks q a !! Z.to_nat call = Some (Some f))
           (translator j index') (install_call sec a' j)) with (s := t); auto.
  intros c u u' Hc [Hu Hq] Hstep. split.
  - apply (install_call_sized sec a' j c u u'); auto.
  - apply (install_call_keeps_callback a' j c u u'); auto.
    intros index'' Hidx''. rewrite Hidx' in Hidx''. injection Hidx'' as <-. exact Hc.
Qed.

Lemma row_sets_callback t t' :
  policy_sized t ->
  (calls <- translator_row i (_SYSCALL_INDICIES a) ;;
   for_each calls (install_call sec a i) t) = Ok t' ->
  _callbacks t' a !! Z.to_nat call = Some (Some f).
Proof.
  intros Ht Hrun. rewrite Hidx in Hrun. simpl in Hrun. revert Ht Hrun.
  apply (for_each_reach policy_sized
           (fun q => _callbacks q a !! Z.to_nat call = Some (Some f))
           _ _ (Some call) Hin).
  - intros c u u' _. apply install_call_sized.
  - intros u u'. apply install_call_sets_callback.
  - intros c u u' Hc Hu Hq. apply (install_call_keeps_callback a i c u u'); auto.
    intros index' Hidx'. rewrite Hidx in Hidx'. injection Hidx' as <-. exact Hc.
Qed.

Lemma abi_keeps_callback a' t t' :
  policy_sized t -> _callbacks t a !! Z.to_nat call = Some (Some f) ->
  for_each (seq 0 SYSCALL_COUNT)
    (fun j p => calls <- translator_row j (_SYSCALL_INDICIES a') ;;
                for_each calls (install_call sec a' j) p) t = Ok t' ->
  _callbacks t' a !! Z.to_nat call = Some (Some f).
Proof.
  intros Ht Hslot.
  apply (for_each_inv
           (fun q => policy_sized q /\ _callbacks q a !! Z.to_nat call = Some (Some f)));
    auto.
  intros j u u' Hj [Hu Hq] Hstep. apply in_seq in Hj. split.
  - apply (row_sized a' j u u'); auto.
  - apply (row_keeps_callback a' j u u'); auto. lia.
Qed.

Lemma abi_sets_callback t t' :
  policy_sized t ->
  for_each (seq 0 SYSCALL_COUNT)
    (fun j p => calls <- translator_row j (_SYSCALL_INDICIES a) ;;
                for_each calls (install_call sec a j) p) t = Ok t' ->
  _callbacks t' a !! Z.to_nat call = Some (Some f).
Proof.
  apply (for_each_reach policy_sized
           (fun q => _callbacks q a !! Z.to_nat call = Some (Some f)) _ _ i).
  - apply in_seq. lia.
  - intros j u u' _. apply row_sized.
  - intros u u'. apply row_sets_callback.
  - intros j u u' Hj Hu Hq. apply in_seq in Hj.
    apply (row_keeps_callback a j u u'); auto. lia.
Qed.

End OneCallback.

(** X5. After the constructor has installed a map, the callable handler
    of a canonical syscall sits in the callback table at every native
    number of that syscall on every supported ABI, and [_callback] on such a
    number returns what that handler returns for the debugger. *)
Theorem installed_callback_is_dispatched (p : Policy) (a : abi) (index i : nat)
    (call : Z) (f : Debugger -> bool) (d : Debugger) :
  install_policy sec policy_init = Ok p ->
  translator_wf -> translator_functional index ->
  visited a index i call -> security_get sec i = HCallable f ->
  _callbacks p a !! Z.to_nat call = Some (Some f) /\
  (dbg_abi d = a -> _callback p d call = f d).
Proof.
  intros Hrun Hwf Hfun (Ha & Hidx & Hi & Hin) Hf.
  assert (Hslot : _callbacks p a !! Z.to_nat call = Some (Some f)).
  { revert Hrun. unfold install_policy.
    apply (for_each_reach policy_sized
             (fun q => _callbacks q a !! Z.to_nat call = Some (Some f)) _ _ a Ha).
    - intros a' u u' _. apply abi_sized.
    - intros u u'. apply (abi_sets_callback a index i call f); auto.
    - intros a' u u' _. apply (abi_keeps_callback a index i call f); auto.
    - apply policy_init_sized. }
  split; [exact Hslot|]. intros <-.
  pose proof (install_policy_sized sec policy_init p policy_init_sized Hrun) as [Hlc _].
  pose proof (Hwf i index call Hi Hin) as Hcallr.
  unfold _callback, py_getitem.
  rewrite decide_False by (intros Hinv; rewrite Hinv in Hidx; discriminate).
  rewrite Hlc, py_index_in_range by exact Hcallr. rewrite Hslot. reflexivity.
Qed.

(** X6. After the constructor has installed a map, [_callback] answers
    [False] on every number inside the table none of whose canonical
    syscalls has a callable handler: an [int] handler, [ALLOW] included,
    never makes [_callback] allow a call. *)
Theorem callback_false_without_callable (p : Policy) (a : abi) (index : nat)
    (call : Z) (d : Debugger) :
  install_policy sec policy_init = Ok p -> translator_wf ->
  _SYSCALL_INDICIES a = Some index ->
  0 <= call < Z.of_nat MAX_SYSCALL_NUMBER ->
  (forall j f, (j < SYSCALL_COUNT)%nat -> In (Some call) (translator j index) ->
     security_get sec j <> HCallable f) ->
  dbg_abi d = a -> _callback p d call = false.
Proof.
  intros Hrun Hwf Hidx Hcall Hnone <-.
  destruct (install_policy_traced sec policy_init p Hwf
              (conj policy_init_sized (policy_init_traced sec)) Hrun)
    as [[Hlc _] [Hcb _]].
  unfold _callback, py_getitem.
  rewrite decide_False by (intros Hinv; rewrite Hinv in Hidx; discriminate).
  rewrite Hlc, py_index_in_range by exact Hcall.
  destruct (_callbacks p (dbg_abi d) !! Z.to_nat call) as [[f|]|] eqn:Hf;
    try reflexivity.
  - destruct (Hcb _ _ f Hf) as (j & index' & Hidx' & Hj & Hin & Hsec).
    rewrite Z2Nat.id in Hin by lia.
    assert (index' = index) as -> by congruence.
    destruct (Hnone j f Hj Hin Hsec).
  - apply lookup_ge_None in Hf. rewrite Hlc in Hf. lia.
Qed.

End CallbackProperties.

(** ** Which maps the constructor accepts *)

Section AcceptedMaps.
Context `{Cptbox}.
Variable sec : gmap nat handler_value.

(** A handler that is not accepted stops the loop wherever it is met. *)
Lemma install_policy_rejects (a : abi) (index i : nat) (call : Z) (p : Policy) :
  visited a index i call -> ~ handler_accepted (security_get sec i) ->
  exists e, install_policy sec p = Raise e.
Proof.
  intros (Ha & Hidx & Hi & Hcall) Hbad. unfold install_policy.
  apply (for_each_raises _ _ a Ha). intros t. simpl. rewrite Hidx.
  apply (for_each_raises _ _ i); [apply in_seq; lia|].
  intros u. simpl.
  apply (for_each_raises _ _ (Some call) Hcall).
  intros v. simpl.
  destruct (security_get sec i); simpl in Hbad; try tauto; eauto.
Qed.

Lemma install_call_accepts a index i call p :
  translator_wf -> (i < SYSCALL_COUNT)%nat -> In call (translator i index) ->
  (forall c, call = Some c -> handler_accepted (security_get sec i)) ->
  policy_sized p ->
  exists p', install_call sec a i call p = Ok p' /\ policy_sized p'.
Proof.
  intros Hwf Hi Hin Hacc Hp. unfold install_call.
  destruct call as [c|]; [|eauto].
  specialize (Hacc c eq_refl). pose proof (Hwf i index c Hi Hin) as Hc.
  destruct (security_get sec i) as [h|g|s|ty]; simpl in Hacc; try tauto.
  - eexists. split; [reflexivity|]. apply _handler_sized. exact Hp.
  - destruct Hp as [Hlc Hlh]. unfold py_setitem.
    rewrite Hlc, py_index_in_range by exact Hc. simpl.
    eexists. split; [reflexivity|]. apply _handler_sized. split; simpl; [|exact Hlh].
    intros b. destruct (decide (a = b)) as [->|Hab].
    + rewrite fn_lookup_insert, length_insert. apply Hlc.
    + rewrite fn_lookup_insert_ne by exact Hab. apply Hlc.
Qed.

(** X7. For a translation table whose numbers index the tables and
    supported ABIs that all have a column, the constructor's policy loop
    finishes without an exception exactly when every handler it meets (the
    handler, or the default [DISALLOW], of every canonical syscall that has
    a native number on a supported ABI) is an [int] or callable. *)
Theorem install_policy_succeeds_iff :
  translator_wf -> supported_abis_valid ->
  (exists p, install_policy sec policy_init = Ok p) <->
  (forall a index i call, visited a index i call ->
     handler_accepted (security_get sec i)).
Proof.
  intros Hwf Hvalid. split.
  - intros [p Hrun] a index i call Hvis.
    destruct (security_get sec i) as [h|g|s|ty] eqn:Hget; simpl; auto.
    + destruct (install_policy_rejects a index i call policy_init Hvis) as [e He];
        [rewrite Hget; simpl; tauto | congruence].
    + destruct (install_policy_rejects a index i call policy_init Hvis) as [e He];
        [rewrite Hget; simpl; tauto | congruence].
  - intros Hacc. unfold install_policy.
    destruct (for_each_total policy_sized SUPPORTED_ABIS
                (fun a p =>
                   let index := _SYSCALL_INDICIES a in
                   for_each (seq 0 SYSCALL_COUNT) (fun i p =>
                     calls <- translator_row i index ;;
                     for_each calls (install_call sec a i) p) p))
      with (s := policy_init) as (p & Hrun & _); [| apply policy_init_sized | eauto].
    intros a t Ha Ht. simpl.
    destruct (_SYSCALL_INDICIES a) as [index|] eqn:Hidx; [|destruct (Hvalid a Ha Hidx)].
    apply (for_each_total policy_sized); [|exact Ht].
    intros i u Hi Hu. apply in_seq in Hi. simpl.
    apply (for_each_total policy_sized); [|exact Hu].
    intros call v Hcall Hv.
    apply (install_call_accepts a index i call v); auto; [lia|].
    intros c ->. apply (Hacc a index i c). repeat split; auto. lia.
Qed.

(** X8. When the handlers that are neither [int] nor callable are all
    strings, and the loop meets one, the constructor raises [ValueError]
    with the message ['Handler not callable: '] followed by one of those
    strings. *)
Theorem str_handler_raises_ValueError :
  translator_wf -> supported_abis_valid ->
  (forall a index i call ty, visited a index i call ->
     security_get sec i <> HOther ty) ->
  (exists a index i call s, visited a index i call /\ security_get sec i = HStr s) ->
  exists i s, security_get sec i = HStr s /\
    install_policy sec policy_init = Raise (ValueError ("Handler not callable: " ++ s)).
Proof.
  intros Hwf Hvalid Hnoother (a & index & i & call & s & Hvis & Hs).
  destruct (install_policy_rejects a index i call policy_init Hvis) as [e He];
    [rewrite Hs; simpl; tauto|].
  set (R := fun e : exn => exists j s', security_get sec j = HStr s' /\
                 e = ValueError ("Handler not callable: " ++ s')).
  assert (HR : R e).
  { revert He. unfold install_policy.
    apply (for_each_raise_inv_P policy_sized R); [| |apply policy_init_sized].
    - intros a' t t' _. apply abi_sized.
    - intros a' t e1 Ha' Ht. simpl.
      destruct (_SYSCALL_INDICIES a') as [index'|] eqn:Hidx';
        [|destruct (Hvalid a' Ha' Hidx')].
      apply (for_each_raise_inv_P policy_sized R); [| |exact Ht].
      + intros j u u' _ Hu Hstep. apply (row_sized sec a' j u u' Hu).
        rewrite Hidx'. exact Hstep.
      + intros j u e2 Hj Hu. apply in_seq in Hj. simpl.
        apply (for_each_raise_inv_P policy_sized R); [| |exact Hu].
        * intros c v v' _. apply install_call_sized.
        * intros c v e3 Hc [Hlc _]. unfold install_call.
          destruct c as [c|]; [|discriminate].
          pose proof (Hwf j index' c ltac:(lia) Hc) as Hcr.
          destruct (security_get sec j) as [h|g|s'|ty] eqn:Hget.
          -- discriminate.
          -- unfold py_setitem. rewrite Hlc, py_index_in_range by exact Hcr.
             discriminate.
          -- intros [= <-]. exists j, s'. auto.
          -- destruct (Hnoother a' index' j c ty); [repeat split; auto; lia | exact Hget]. }
  destruct HR as (j & s' & Hj & ->). eauto.
Qed.

(** X9. A native number of the native ABI that has a callback installed
    is never on the seccomp whitelist: a syscall that a callback guards
    always reaches the tracer. *)
Theorem callback_numbers_not_whitelisted (p : Policy) (wl : list bool) (index n : nat)
    (f : Debugger -> bool) :
  _SYSCALL_INDICIES NATIVE_ABI = Some index ->
  translator_wf -> translator_functional index ->
  install_policy sec policy_init = Ok p ->
  _get_seccomp_whitelist (Some sec) = Ok wl ->
  _callbacks p NATIVE_ABI !! n = Some (Some f) ->
  wl !! n = Some false.
Proof.
  intros Hidx Hwf Hfun Hrun Hwl Hslot.
  destruct (install_policy_traced sec policy_init p Hwf
              (conj policy_init_sized (policy_init_traced sec)) Hrun)
    as [[Hlc _] [Hcb _]].
  destruct (Hcb _ _ f Hslot) as (i & index' & Hidx' & Hi & Hin & Hsec).
  assert (index' = index) as -> by congruence.
  assert (Hsound : whitelist_sound sec index wl).
  { revert Hwl. unfold _get_seccomp_whitelist. rewrite Hidx.
    apply for_each_inv.
    - intros j u u' Hj. apply in_seq in Hj.
      apply (whitelist_syscall_sound sec index Hwf); lia.
    - split; [apply length_replicate|]. intros k Hk.
      apply lookup_replicate in Hk as [Hk _]. discriminate. }
  destruct Hsound as [Hlen Htrue].
  assert (Hn : (n < MAX_SYSCALL_NUMBER)%nat).
  { rewrite <- (Hlc NATIVE_ABI). apply lookup_lt_is_Some. eauto. }
  destruct (lookup_lt_is_Some_2 wl n) as [b Hb]; [lia|].
  destruct b; [|exact Hb].
  destruct (Htrue n Hb) as (j & Hj & _ & _ & Hjn & Hallow).
  assert (i = j) by (apply (Hfun i j (Z.of_nat n)); auto). subst j.
  rewrite Hsec in Hallow. discriminate.
Qed.

End AcceptedMaps.

(** ** What the constructor leaves behind *)

Lemma closes_app (h1 h2 : list action) : closes (h1 ++ h2) = closes h1 ++ closes h2.
Proof.
  induction h1 as [|a h1 IH]; simpl; [reflexivity|].
  destruct a; simpl; rewrite IH; reflexivity.
Qed.

Section ConstructorProperties.
Context `{Cptbox}.

Lemma closes_perform (a : action) (self : TracedPopen) :
  (forall fd, a <> Close fd) ->
  closes (history (perform a self)) = closes (history self).
Proof.
  intros Ha. simpl. rewrite closes_app.
  destruct a; simpl; try apply app_nil_r. destruct (Ha fd eq_refl).
Qed.

Lemma closes_event_set (e : event) (self : TracedPopen) :
  closes (history (event_set e self)) = closes (history self).
Proof. destruct e; simpl; rewrite closes_app; simpl; apply app_nil_r. Qed.

Lemma closes_close_child_ends (self : TracedPopen) :
  closes (history (close_child_ends self)) =
  closes (history self) ++
  (if stdin_needs_close (streams (settings self))
   then [_child_stdin (streams (settings self))] else []) ++
  (if stdout_needs_close (streams (settings self))
   then [_child_stdout (streams (settings self))] else []) ++
  (if stderr_needs_close (streams (settings self))
   then [_child_stderr (streams (settings self))] else []).
Proof.
  unfold close_child_ends.
  destruct (stdin_needs_close _), (stdout_needs_close _), (stderr_needs_close _);
    simpl; rewrite ?closes_app; simpl; rewrite <- ?app_assoc; simpl;
    rewrite ?app_nil_r; reflexivity.
Qed.


Lemma closes_protection_fault syscall is_update self :
  closes (history (_protection_fault syscall is_update self)) = closes (history self).
Proof.
  unfold _protection_fault. destruct (syscall =? -1); [|reflexivity].
  destruct (_last_ptrace_errno self) as [e|]; [destruct (errorcode e)|]; simpl;
    rewrite closes_app; simpl; apply app_nil_r.
Qed.

Lemma closes_monitor_step (s : stop) (self : TracedPopen) :
  closes (history (fst (monitor_step s self))) = closes (history self).
Proof.
  destruct s as [d|cpu wall mem|sig|errno|code cpu wall mem]; unfold monitor_step.
  - destruct (dbg_syscall d =? -1); [|destruct (on_syscall _ d)]; cbn [fst];
      rewrite closes_perform by discriminate;
      rewrite ?closes_protection_fault; reflexivity.
  - cbn [fst]. rewrite closes_perform by discriminate. reflexivity.
  - repeat case_decide; cbn [fst];
      rewrite !closes_perform by discriminate; reflexivity.
  - reflexivity.
  - reflexivity.
Qed.

Lemma closes_monitor (stops : list stop) (self : TracedPopen) :
  closes (history (fst (_monitor stops self))) = closes (history self).
Proof.
  revert self. induction stops as [|s stops IH]; intros self; simpl; [reflexivity|].
  pose proof (closes_monitor_step s self) as Hs.
  destruct (monitor_step s self) as [self' [| |code]]; simpl in *.
  - rewrite IH. exact Hs.
  - destruct (await_exit_keeps stops self') as (Hh & _). rewrite Hh. exact Hs.
  - exact Hs.
Qed.

Lemma closes_monitor_phase env self :
  closes (history (fst (monitor_phase env self))) = closes (history self).
Proof.
  unfold monitor_phase.
  set (self1 := if FREEBSD then self else _).
  assert (H1 : closes (history self1) = closes (history self)).
  { subst self1. destruct FREEBSD; [reflexivity|].
    apply closes_perform. discriminate. }
  pose proof (closes_monitor (stops env) self1) as Hm.
  destruct (_monitor (stops env) self1) as [self2 [code|]]; cbn [fst] in *.
  - rewrite closes_event_set. rewrite <- H1, <- Hm.
    destruct (truthy _ && Qgtb _ _); reflexivity.
  - congruence.
Qed.

Lemma init_stream_pipe (s : option stream) (child_end : Z) :
  (if snd (init_stream s child_end) then [fst (init_stream s child_end)] else []) =
  (if is_pipe s then [child_end] else []).
Proof.
  unfold init_stream, is_pipe. destruct s as [[n|fileno]|]; simpl; try reflexivity.
  destruct (n =? PIPE); reflexivity.
Qed.

Lemma closes_spawn_phase a env p :
  closes (history (fst (spawn_phase env (before_worker a env p)))) = pipe_child_ends a env.
Proof.
  assert (Hbefore : closes (history (before_worker a env p)) = [] /\
                    streams (settings (before_worker a env p)) = __init_streams a env).
  { unfold before_worker. destruct (truthy (time a)); split; reflexivity. }
  destruct Hbefore as [Hnone Hstreams].
  set (s0 := before_worker a env p) in *. clearbody s0.
  assert (Hends : forall s1, streams (settings s1) = __init_streams a env ->
            closes (history (close_child_ends s1)) =
            closes (history s1) ++ pipe_child_ends a env).
  { intros s1 Hs1. rewrite closes_close_child_ends, Hs1. unfold __init_streams. simpl.
    rewrite !init_stream_pipe. reflexivity. }
  unfold spawn_phase. destruct (spawn_result env) as [child|e]; cbn [fst].
  - rewrite closes_event_set, Hends by exact Hstreams.
    simpl. rewrite closes_app, Hnone. reflexivity.
  - rewrite closes_event_set, Hends.
    + rewrite closes_event_set. simpl. rewrite closes_app, Hnone. reflexivity.
    + destruct Died; exact Hstreams.
Qed.

Lemma closes_kill fails self : closes (history (kill fails self)) = closes (history self).
Proof.
  unfold kill. destruct (returncode (process self)); [reflexivity|].
  unfold os_killpg. destruct fails; simpl; rewrite !closes_app; simpl;
    rewrite ?app_nil_r; reflexivity.
Qed.

Lemma closes_shocker_loop wakes self :
  closes (history (fst (shocker_loop wakes self))) = closes (history self).
Proof.
  revert self. induction wakes as [|w wakes IH]; intros self; cbn [shocker_loop];
    [reflexivity|].
  destruct (wake_died w); [reflexivity|].
  cbn [process set_process settings].
  destruct (Qgtb _ _ || Qgtb _ _); cbn [fst].
  - change (history (set_is_tle true ?s)) with (history s).
    rewrite closes_kill. reflexivity.
  - unfold os_killpg. destruct (wake_killpg_fails w); rewrite IH; simpl;
      rewrite closes_app; simpl; apply app_nil_r.
Qed.

(** Nothing is closed between the event and the moment the caller of the
    constructor runs again. *)
Lemma closes_until_resumed a env spawned self :
  closes (history (until_resumed a env spawned self)) = closes (history self).
Proof.
  unfold until_resumed. destruct (resumed_after env) as [k|]; [|reflexivity].
  set (self1 := if spawned then _ else self).
  assert (H1 : closes (history self1) = closes (history self)).
  { subst self1. destruct spawned; [apply closes_monitor_phase | reflexivity]. }
  clearbody self1.
  destruct (truthy (time a) && negb (_died self1)); [|exact H1].
  unfold _shocker_thread. destruct (_spawned_or_errored self1); [|exact H1].
  rewrite closes_shocker_loop. exact H1.
Qed.


(** X11. The worker closes exactly the child ends of the pipes that the
    constructor created for the [PIPE] arguments, stdin's first, then
    stdout's, then stderr's, whether the spawn succeeds or raises; it has
    closed them all when the constructor is woken, closes nothing during
    monitoring, and never closes a descriptor or file that the caller
    passed in. *)
Theorem worker_closes_its_pipe_ends (a : InitArgs) (env : Environment) (p : Policy) :
  init_policy a = Ok p ->
  closes (history (fst (__init__ a env))) = pipe_child_ends a env /\
  closes (history (fst (_run_process env (before_worker a env p)))) =
  pipe_child_ends a env.
Proof.
  intros Hp. rewrite (__init___object a env p Hp), closes_until_resumed.
  pose proof (closes_spawn_phase a env p) as Hs. split; [exact Hs|].
  unfold _run_process.
  destruct (spawn_phase env (before_worker a env p)) as [self [|]]; cbn [fst] in *.
  - rewrite closes_monitor_phase. exact Hs.
  - exact Hs.
Qed.

End ConstructorProperties.

(** ** Whole runs of the watchdog *)

Section WatchdogProperties.
Context `{Cptbox}.

Lemma shocker_loop_died w wakes self :
  wake_died w = true -> shocker_loop (w :: wakes) self = (self, true).
Proof. intros Hd. simpl. rewrite Hd. reflexivity. Qed.

Lemma shocker_loop_quiet w wakes self :
  wake_died w = false -> ~ exceeded (settings self) w ->
  shocker_loop (w :: wakes) self =
  shocker_loop wakes (perform (wake_action w) (set_process (wake_process w) self)).
Proof.
  intros Hd Hunder. cbn [shocker_loop]. rewrite Hd.
  cbn [process set_process settings].
  destruct (Qgtb _ _ || Qgtb _ _) eqn:Hover.
  - apply (over_limit_iff self) in Hover. destruct (Hunder Hover).
  - unfold os_killpg. destruct (wake_killpg_fails w); reflexivity.
Qed.

Lemma shocker_loop_exceeded w wakes self :
  wake_died w = false -> exceeded (settings self) w ->
  shocker_loop (w :: wakes) self =
  (set_is_tle true (kill (wake_killpg_fails w) (set_process (wake_process w) self)), true).
Proof.
  intros Hd Hover. apply (over_limit_iff self) in Hover.
  cbn [shocker_loop]. rewrite Hd. cbn [process set_process settings].
  rewrite Hover. reflexivity.
Qed.

Lemma wake_cases (s : Settings) (w : wake) :
  wake_died w = true \/
  (wake_died w = false /\ exceeded s w) \/
  (wake_died w = false /\ ~ exceeded s w).
Proof.
  destruct (wake_died w); [auto|]. right.
  destruct (Qlt_le_dec (_time s) (execution_time (wake_process w))) as [Ht|Ht].
  - left. split; [reflexivity | left; exact Ht].
  - destruct (Qlt_le_dec (_wall_time s) (wall_clock_time (wake_process w))) as [Hw|Hw].
    + left. split; [reflexivity | right; exact Hw].
    + right. split; [reflexivity|]. intros [Hx|Hx].
      * apply (Qlt_not_le _ _ Hx Ht).
      * apply (Qlt_not_le _ _ Hx Hw).
Qed.

Lemma history_kill fails self :
  exists tail, history (kill fails self) = history self ++ tail /\
    (tail = [] \/ tail = [Killpg (pid (process self)) SIGKILL] \/
     tail = [Killpg (pid (process self)) SIGKILL; PrintTraceback]).
Proof.
  unfold kill. destruct (returncode (process self)).
  - exists []. rewrite app_nil_r. auto.
  - unfold os_killpg. destruct fails; simpl.
    + eexists. rewrite <- app_assoc. simpl. eauto.
    + eexists. eauto.
Qed.

(** X12. As long as [died] is not set and no limit is exceeded, the
    watchdog sends at each wake one wake signal to the process group whose
    pid it reads then, whether or not an earlier delivery failed, and
    nothing else: after any number of such wakes it is still running, the
    time-limit flag is as it was, and no event has been set. *)
Theorem shocker_quiet_wakes (wakes : list wake) (self : TracedPopen) :
  Forall (fun w => wake_died w = false /\ ~ exceeded (settings self) w) wakes ->
  let r := shocker_loop wakes self in
  snd r = false /\
  history (fst r) = history self ++ map wake_action wakes /\
  _is_tle (fst r) = _is_tle self /\
  events_set (history (fst r)) = events_set (history self).
Proof.
  revert self. induction wakes as [|w wakes IH]; intros self Hall r; subst r.
  - simpl. rewrite app_nil_r. auto.
  - inversion Hall as [|w' wakes' [Hd Hunder] Hrest]; subst.
    rewrite (shocker_loop_quiet w wakes self Hd Hunder).
    destruct (IH (perform (wake_action w) (set_process (wake_process w) self)))
      as (Hrun & Hhist & Htle & Hev); [exact Hrest|].
    split; [exact Hrun|]. split; [|split].
    + rewrite Hhist. simpl. rewrite <- app_assoc. reflexivity.
    + rewrite Htle. reflexivity.
    + rewrite Hev. simpl. rewrite events_set_app. simpl. apply app_nil_r.
Qed.

(** X13. The watchdog sets the time-limit flag only if at some wake,
    with [died] not set, it found [execution_time] above the CPU limit or
    [wall_clock_time] above the wall limit. *)
Theorem shocker_tle_only_if_exceeded (wakes : list wake) (self : TracedPopen) :
  _is_tle self = false ->
  _is_tle (fst (shocker_loop wakes self)) = true ->
  Exists (fun w => wake_died w = false /\ exceeded (settings self) w) wakes.
Proof.
  revert self. induction wakes as [|w wakes IH]; intros self Hclear Hset.
  - simpl in Hset. congruence.
  - destruct (wake_cases (settings self) w) as [Hd|[[Hd Hover]|[Hd Hunder]]].
    + rewrite (shocker_loop_died w wakes self Hd) in Hset. simpl in Hset. congruence.
    + apply Exists_cons_hd. auto.
    + apply Exists_cons_tl.
      rewrite (shocker_loop_quiet w wakes self Hd Hunder) in Hset.
      apply (IH (perform (wake_action w) (set_process (wake_process w) self)));
        [exact Hclear | exact Hset].
Qed.

(** X14. Whatever the watchdog observes, all it ever does is send wake
    signals, one for each of the first wakes, and then at most one
    SIGKILL (followed by a printed traceback if its delivery failed); after
    a SIGKILL the thread has finished with the time-limit flag set. *)
Theorem shocker_sends_only_signals (wakes : list wake) (self : TracedPopen) :
  exists n tail,
    (n <= length wakes)%nat /\
    history (fst (shocker_loop wakes self)) =
      history self ++ map wake_action (take n wakes) ++ tail /\
    (tail = [] \/
     (snd (shocker_loop wakes self) = true /\
      _is_tle (fst (shocker_loop wakes self)) = true /\
      exists child, tail = [Killpg child SIGKILL] \/
                    tail = [Killpg child SIGKILL; PrintTraceback])).
Proof.
  revert self. induction wakes as [|w wakes IH]; intros self.
  - exists 0%nat, []. simpl. rewrite app_nil_r. auto.
  - destruct (wake_cases (settings self) w) as [Hd|[[Hd Hover]|[Hd Hunder]]].
    + exists 0%nat, []. rewrite (shocker_loop_died w wakes self Hd).
      simpl. rewrite app_nil_r. split; [lia | auto].
    + rewrite (shocker_loop_exceeded w wakes self Hd Hover). cbn [fst snd].
      destruct (history_kill (wake_killpg_fails w) (set_process (wake_process w) self))
        as (tail & Hhist & Htail).
      exists 0%nat, tail. split; [simpl; lia|]. split; [exact Hhist|].
      destruct Htail as [->|Htail]; [auto|]. right. repeat split. eauto.
    + rewrite (shocker_loop_quiet w wakes self Hd Hunder).
      destruct (IH (perform (wake_action w) (set_process (wake_process w) self)))
        as (n & tail & Hn & Hhist & Htail).
      exists (S n), tail. split; [simpl; lia|]. split; [|exact Htail].
      rewrite Hhist. simpl. rewrite <- app_assoc. reflexivity.
Qed.

End WatchdogProperties.

(** ** Waiting for the child *)

Section WaitProperties.
Context `{SpawnFailCodes}.

(** X15. [wait] returns only once [died] is set, and what it returns is
    the return code; for a child that was never initialised it returns only
    a negative code that is none of the four spawn-failure codes. *)
Theorem wait_returns_only (self : TracedPopen) (rc : option Z) :
  wait self = Some (Ok rc) ->
  _died self = true /\ rc = returncode (process self) /\
  (was_initialized (process self) = true \/
   exists code, rc = Some code /\ code < 0 /\ ~ spawn_fail_code code).
Proof.
  unfold wait. destruct (_died self); [|discriminate].
  destruct (was_initialized (process self)); [intros [= <-]; auto|].
  destruct (returncode (process self)) as [code|]; [|discriminate].
  destruct (code =? PTBOX_SPAWN_FAIL_NO_NEW_PRIVS) eqn:H1; [discriminate|].
  destruct (code =? PTBOX_SPAWN_FAIL_SECCOMP) eqn:H2; [discriminate|].
  destruct (code =? PTBOX_SPAWN_FAIL_TRACEME) eqn:H3; [discriminate|].
  destruct (code =? PTBOX_SPAWN_FAIL_EXECVE) eqn:H4; [discriminate|].
  destruct (0 <=? code) eqn:H5; [discriminate|].
  intros [= <-]. apply Z.eqb_neq in H1, H2, H3, H4. apply Z.leb_gt in H5.
  repeat split; auto. right. exists code. repeat split; auto.
  unfold spawn_fail_code. tauto.
Qed.

(** X16. Once [died] is set, for a child that was never initialised and
    has a return code, [wait] raises [RuntimeError] exactly when the code is
    one of the four spawn-failure codes or is not negative; the code of a
    failed [execve], when it differs from the three codes tested before
    it, gives the message ['failed to spawn child']. *)
Theorem wait_reports_failed_spawn (self : TracedPopen) (code : Z) :
  _died self = true -> was_initialized (process self) = false ->
  returncode (process self) = Some code ->
  ((exists msg, wait self = Some (Raise (RuntimeError msg))) <->
   spawn_fail_code code \/ 0 <= code) /\
  (code = PTBOX_SPAWN_FAIL_EXECVE ->
   code <> PTBOX_SPAWN_FAIL_NO_NEW_PRIVS -> code <> PTBOX_SPAWN_FAIL_SECCOMP ->
   code <> PTBOX_SPAWN_FAIL_TRACEME ->
   wait self = Some (Raise (RuntimeError "failed to spawn child"))).
Proof.
  intros Hd Hinit Hrc. unfold wait. rewrite Hd, Hinit, Hrc. split.
  - unfold spawn_fail_code.
    destruct (Z.eqb_spec code PTBOX_SPAWN_FAIL_NO_NEW_PRIVS) as [H1|H1];
      [split; eauto|].
    destruct (Z.eqb_spec code PTBOX_SPAWN_FAIL_SECCOMP) as [H2|H2]; [split; eauto|].
    destruct (Z.eqb_spec code PTBOX_SPAWN_FAIL_TRACEME) as [H3|H3];
      [split; eauto 6|].
    destruct (Z.eqb_spec code PTBOX_SPAWN_FAIL_EXECVE) as [H4|H4]; [split; eauto 6|].
    destruct (Z.leb_spec 0 code) as [H5|H5]; [split; eauto|].
    split; [intros [msg Hmsg]; discriminate|].
    intros [[?|[?|[?|?]]]|?]; try contradiction. lia.
  - intros He H1 H2 H3.
    apply Z.eqb_neq in H1, H2, H3. rewrite H1, H2, H3.
    apply Z.eqb_eq in He. rewrite He. reflexivity.
Qed.

End WaitProperties.

(** ** More on reading strings *)

Section ReadstrMore.
Context `{Cptbox}.

(** X17. On an ABI with 32-bit addresses only the low 32 bits of the
    address matter: two addresses that differ by a multiple of 2^32 give
    the same result. *)
Theorem readstr_32bit_aliases (d : Debugger) (address k : Z) (max_size : nat) :
  address_bits d = Some 32 ->
  readstr d (address + k * 2 ^ 32) max_size = readstr d address max_size.
Proof.
  intros Hbits. unfold readstr.
  destruct (decide (address_bits d = Some 32)) as [_|Hne]; [|contradiction].
  change 4294967295 with (Z.ones 32). rewrite !Z.land_ones by lia.
  rewrite Z_mod_plus_full. reflexivity.
Qed.

(** X18. [readstr] returns [None] only when the read of the extension
    returned [None], and a string that it returns is the decoding of at
    most [max_size] bytes. *)
Theorem readstr_result_bound (d : Debugger) (address : Z) (max_size : nat) :
  let a := if decide (address_bits d = Some 32) then Z.land address 0xFFFFFFFF
           else address in
  (readstr d address max_size = Ok None <->
   Debugger_readstr (dbg_memory d) a (max_size + 1) = None) /\
  (forall text, readstr d address max_size = Ok (Some text) ->
     exists read, Debugger_readstr (dbg_memory d) a (max_size + 1) = Some read /\
       (length read <= max_size)%nat /\ utf8text read = Ok text).
Proof.
  intros a. unfold readstr. fold a.
  destruct (Debugger_readstr (dbg_memory d) a (max_size + 1)) as [read|].
  - destruct (max_size <? length read)%nat eqn:Hlen.
    + split; [split; discriminate | discriminate].
    + apply Nat.ltb_ge in Hlen.
      destruct (utf8text read) as [text|e] eqn:Htext; simpl.
      * split; [split; discriminate|]. intros text' [= <-]. eauto.
      * split; [split; discriminate | discriminate].
  - split; [split; reflexivity | discriminate].
Qed.

End ReadstrMore.

(** ** Flags that the watchdog and the callbacks keep *)

Section StickyFlags.
Context `{Cptbox}.

Lemma kill_keeps fails self :
  _is_tle (kill fails self) = _is_tle self /\
  protection_fault (kill fails self) = protection_fault self.
Proof.
  unfold kill. destruct (returncode (process self)); [auto|].
  unfold os_killpg. destruct fails; auto.
Qed.

(** X19. The time-limit flag is never cleared: once set it stays set
    through any run of the watchdog, through [kill], through the recording
    of a protection fault or of a ptrace error and through [mark_ole]; and
    the watchdog never records or erases a protection fault. *)
Theorem tle_flag_is_sticky (self : TracedPopen) :
  (forall wakes,
     (_is_tle self = true -> _is_tle (fst (shocker_loop wakes self)) = true) /\
     protection_fault (fst (shocker_loop wakes self)) = protection_fault self) /\
  (forall fails, _is_tle (kill fails self) = _is_tle self) /\
  (forall syscall is_update,
     _is_tle (_protection_fault syscall is_update self) = _is_tle self) /\
  (forall error, _is_tle (_ptrace_error error self) = _is_tle self) /\
  _is_tle (mark_ole self) = _is_tle self /\
  _is_tle (_cpu_time_exceeded self) = true.
Proof.
  split; [|repeat split].
  - intros wakes. revert self. induction wakes as [|w wakes IH]; intros self; [auto|].
    destruct (wake_cases (settings self) w) as [Hd|[[Hd Hover]|[Hd Hunder]]].
    + rewrite (shocker_loop_died w wakes self Hd). auto.
    + rewrite (shocker_loop_exceeded w wakes self Hd Hover). cbn [fst].
      split; [reflexivity|].
      destruct (kill_keeps (wake_killpg_fails w) (set_process (wake_process w) self))
        as [_ Hpf].
      simpl. simpl in Hpf. exact Hpf.
    + rewrite (shocker_loop_quiet w wakes self Hd Hunder).
      destruct (IH (perform (wake_action w) (set_process (wake_process w) self)))
        as [Htle Hpf].
      split; [exact Htle | exact Hpf].
  - intros fails. apply kill_keeps.
  - intros syscall is_update. unfold _protection_fault.
    destruct (syscall =? -1); [|reflexivity].
    destruct (_last_ptrace_errno self) as [e|]; [destruct (errorcode e)|]; reflexivity.
Qed.

End StickyFlags.

(** ** ABIs without callbacks, and the verdict flags *)

Section UnsupportedAbis.
Context `{Cptbox}.
Variable sec : gmap nat handler_value.

Lemma install_call_other_abi a' a j call p p' :
  a' <> a -> install_call sec a' j call p = Ok p' -> _callbacks p' a = _callbacks p a.
Proof.
  intros Hne. unfold install_call. destruct call as [c|]; [|intros [= <-]; reflexivity].
  destruct (security_get sec j) as [h|g|s|ty]; try discriminate.
  - intros [= <-]. rewrite _handler_callbacks. reflexivity.
  - intros Hrun. apply bind_Ok_inv in Hrun as (cbs & _ & [= <-]).
    rewrite _handler_callbacks. simpl. apply fn_lookup_insert_ne. exact Hne.
Qed.

Lemma _callback_empty_table p d n :
  _callbacks p (dbg_abi d) = replicate MAX_SYSCALL_NUMBER None ->
  - Z.of_nat MAX_SYSCALL_NUMBER <= n < Z.of_nat MAX_SYSCALL_NUMBER ->
  _callback p d n = false.
Proof.
  intros Hempty Hn. unfold _callback, py_getitem. rewrite Hempty, length_replicate.
  case_decide; [reflexivity|].
  destruct (py_index MAX_SYSCALL_NUMBER n) as [k|] eqn:Hk.
  - apply py_index_lt in Hk. rewrite lookup_replicate_2 by exact Hk. reflexivity.
  - unfold py_index in Hk. repeat case_decide; try discriminate; lia.
Qed.

(** X20. The constructor installs callbacks only for the supported ABIs:
    for any other ABI the callback table stays empty, so [_callback]
    answers [False] on every number that indexes the table. The same
    holds on every ABI when no security map is given. *)
Theorem unsupported_abi_has_no_callbacks (p : Policy) (d : Debugger) (n : Z) :
  - Z.of_nat MAX_SYSCALL_NUMBER <= n < Z.of_nat MAX_SYSCALL_NUMBER ->
  (install_policy sec policy_init = Ok p -> ~ In (dbg_abi d) SUPPORTED_ABIS ->
   _callbacks p (dbg_abi d) = replicate MAX_SYSCALL_NUMBER None /\
   _callback p d n = false) /\
  (forall a, security a = None ->
     init_policy a = Ok policy_init /\ _callback policy_init d n = false).
Proof.
  intros Hn. split.
  - intros Hrun Hunsup.
    assert (Hempty : _callbacks p (dbg_abi d) = replicate MAX_SYSCALL_NUMBER None).
    { revert Hrun. unfold install_policy.
      apply (for_each_inv
               (fun q => _callbacks q (dbg_abi d) = replicate MAX_SYSCALL_NUMBER None));
        [|reflexivity].
      intros a' t t' Ha'.
      assert (Hne : a' <> dbg_abi d) by (intros ->; contradiction).
      apply (for_each_inv
               (fun q => _callbacks q (dbg_abi d) = replicate MAX_SYSCALL_NUMBER None)).
      intros j u u' _ Hu Hstep.
      apply bind_Ok_inv in Hstep as (calls & _ & Hstep). revert Hu Hstep.
      apply (for_each_inv
               (fun q => _callbacks q (dbg_abi d) = replicate MAX_SYSCALL_NUMBER None)).
      intros c v v' _ Hv Hstep.
      rewrite (install_call_other_abi a' (dbg_abi d) j c v v' Hne Hstep). exact Hv. }
    split; [exact Hempty|]. apply _callback_empty_table; auto.
  - intros a Hnone. unfold init_policy. rewrite Hnone. split; [reflexivity|].
    apply _callback_empty_table; auto.
Qed.

End UnsupportedAbis.

(** X21. The verdict flags never overlap: with a return code exactly one
    of "invalid return" ([is_ir], code positive), "runtime error" ([is_rte],
    code negative) and neither (code zero) holds; without a return code
    [is_rte] is [True] and evaluating [is_ir] raises [TypeError]. *)
Theorem verdict_flags_partition (self : TracedPopen) :
  (returncode (process self) = None ->
   is_rte self = true /\ exists msg, is_ir self = Raise (TypeError msg)) /\
  (forall code, returncode (process self) = Some code ->
     (0 < code /\ is_ir self = Ok true /\ is_rte self = false) \/
     (code < 0 /\ is_ir self = Ok false /\ is_rte self = true) \/
     (code = 0 /\ is_ir self = Ok false /\ is_rte self = false)).
Proof.
  unfold is_ir, is_rte. split.
  - intros ->. eauto.
  - intros code ->.
    destruct (Z.ltb_spec 0 code) as [Hpos|Hle]; destruct (Z.ltb_spec code 0) as [Hneg|Hge];
      try lia; auto.
    right. right. repeat split. lia.
Qed.

(** ** The sample platform, continued *)

Section MoreSampleProperties.
#[local] Existing Instance sample_cptbox.
#[local] Existing Instance sample_spawn_codes.

Lemma sample_abis_valid : supported_abis_valid.
Proof.
  intros a Ha. simpl in Ha. destruct Ha as [<-|[<-|[]]]; discriminate.
Qed.

Lemma sample_whitelist_built :
  _get_seccomp_whitelist (Some sample_security) = Ok sample_whitelist.
Proof. vm_compute. reflexivity. Qed.

Lemma sample_open_visited : visited PTBOX_ABI_ARM 3%nat 1%nat 5.
Proof. repeat split; simpl; auto; lia. Qed.

Lemma sample_open_callable : security_get sample_security 1%nat = HCallable sample_open_callback.
Proof. reflexivity. Qed.

Lemma syscall_name_of_native_witness :
  get_syscall_name arm_open_debugger 5 = "open"%string.
Proof.
  apply (eq_trans (y := by_id 1%nat)); [|reflexivity].
  apply (syscall_name_of_native arm_open_debugger 3%nat 1%nat 5).
  - reflexivity.
  - simpl. lia.
  - simpl. auto.
  - right. apply sample_translator_functional.
Defined.

Lemma syscall_name_unknown_witness :
  get_syscall_name (sample_debugger PTBOX_ABI_X64 999) 999 = "unknown"%string.
Proof.
  apply (proj2 (syscall_name_unknown (sample_debugger PTBOX_ABI_X64 999) 999) 1%nat).
  - reflexivity.
  - intros i Hi Hin. simpl in Hi, Hin.
    destruct i as [|[|[|[|[|i]]]]]; try lia; simpl in Hin;
      repeat (destruct Hin as [Hin|Hin]); try contradiction; discriminate.
Defined.

Lemma noop_syscall_is_getpid_witness :
  head (translator sys_getpid 1%nat) = Some (Some 39) /\
  get_syscall_name (sample_debugger PTBOX_ABI_X64 0) 39 = "getpid"%string.
Proof.
  destruct (proj2 (noop_syscall_is_getpid (sample_debugger PTBOX_ABI_X64 0)) 1%nat 39)
    as [Hhead Hname]; [| | | | split; [exact Hhead | exact Hname]].
  - reflexivity.
  - reflexivity.
  - simpl. lia.
  - apply sample_translator_functional.
Defined.

Lemma protection_fault_names_syscall_witness :
  protection_fault
    (_protection_fault 5 false
       (set_debugger arm_open_debugger
          (before_worker sample_args running_env sample_policy))) =
  Some (5, "open"%string, [7; 0; 0; 0; 0; 0], None).
Proof.
  destruct (protection_fault_names_syscall
              (before_worker sample_args running_env sample_policy)
              arm_open_debugger 3%nat 1%nat false) as (Hfault & _).
  - discriminate.
  - reflexivity.
  - simpl. lia.
  - simpl. auto.
  - apply sample_translator_functional.
  - exact Hfault.
Defined.

Lemma sample_open_slot :
  _callbacks sample_policy PTBOX_ABI_ARM !! 5%nat = Some (Some sample_open_callback).
Proof. vm_compute. reflexivity. Qed.

Lemma callback_negative_number_reads_from_end_witness :
  ~ (0 <= -251 < Z.of_nat MAX_SYSCALL_NUMBER) /\
  _callback sample_policy arm_negative_debugger (-251) = true.
Proof.
  destruct (callback_negative_number_reads_from_end sample_security sample_policy
              arm_negative_debugger 5%nat sample_open_callback
              sample_policy_installed) as [Hout Hcall].
  - discriminate.
  - exact sample_open_slot.
  - split; [exact Hout | exact Hcall].
Defined.

(** The modelled monitor then continues the tracee at that stop. *)
Example sample_negative_number_continues :
  let self := before_worker sample_args running_env sample_policy in
  monitor_step (SyscallEntry arm_negative_debugger) self =
  (perform ContinueTracee (set_debugger arm_negative_debugger self), Running).
Proof.
  intros self. unfold monitor_step.
  replace (on_syscall (set_debugger arm_negative_debugger self) arm_negative_debugger)
    with true by (vm_compute; reflexivity).
  reflexivity.
Qed.

Lemma installed_callback_is_dispatched_witness :
  _callback sample_policy arm_open_debugger 5 = true.
Proof.
  destruct (installed_callback_is_dispatched sample_security sample_policy
              PTBOX_ABI_ARM 3%nat 1%nat 5 sample_open_callback arm_open_debugger
              sample_policy_installed sample_translator_wf
              (sample_translator_functional 3%nat) sample_open_visited
              sample_open_callable) as [_ Hcall].
  rewrite (Hcall eq_refl). reflexivity.
Defined.

Lemma callback_false_without_callable_witness :
  _callback sample_policy (sample_debugger PTBOX_ABI_X64 0) 0 = false.
Proof.
  apply (callback_false_without_callable sample_security sample_policy
           PTBOX_ABI_X64 1%nat 0 (sample_debugger PTBOX_ABI_X64 0)
           sample_policy_installed sample_translator_wf).
  - reflexivity.
  - simpl. lia.
  - intros j f Hj Hin. simpl in Hj, Hin.
    destruct j as [|[|[|[|[|j]]]]]; try lia; simpl in Hin;
      repeat (destruct Hin as [Hin|Hin]); try contradiction; try discriminate.
  - reflexivity.
Defined.

Lemma install_policy_succeeds_iff_witness :
  handler_accepted (security_get sample_security 1%nat).
Proof.
  apply (proj1 (install_policy_succeeds_iff sample_security sample_translator_wf
                  sample_abis_valid)
           (ex_intro _ sample_policy sample_policy_installed)
           PTBOX_ABI_ARM 3%nat 1%nat 5 sample_open_visited).
Defined.

Lemma str_handler_raises_ValueError_witness :
  exists i s, security_get str_handler_security i = HStr s /\
    install_policy str_handler_security policy_init =
    Raise (ValueError ("Handler not callable: " ++ s)).
Proof.
  apply (str_handler_raises_ValueError str_handler_security sample_translator_wf
           sample_abis_valid).
  - intros a index i call ty _. unfold security_get, str_handler_security, sample_security.
    rewrite !lookup_insert, lookup_empty. repeat case_decide; discriminate.
  - exists PTBOX_ABI_ARM, 3%nat, 1%nat, 5, "allow"%string.
    split; [exact sample_open_visited | reflexivity].
Defined.

Lemma callback_numbers_not_whitelisted_witness :
  sample_whitelist !! 2%nat = Some false.
Proof.
  apply (callback_numbers_not_whitelisted sample_security sample_policy sample_whitelist
           1%nat 2%nat sample_open_callback sample_native_index sample_translator_wf
           (sample_translator_functional 1%nat) sample_policy_installed
           sample_whitelist_built).
  vm_compute. reflexivity.
Defined.


(** When the caller of the constructor runs late, the child may have
    exited, so that [died] is set, or a syscall may have been denied. *)
Example sample_constructor_returns_late :
  _died (fst (__init__ sample_args late_env)) = true /\
  returncode (process (fst (__init__ sample_args late_env))) = Some 0 /\
  protection_fault (fst (__init__ sample_args denied_env)) =
    Some (39, "getpid"%string, [0; 0; 0; 0; 0; 0], None).
Proof. repeat split; vm_compute; reflexivity. Qed.

Lemma worker_closes_its_pipe_ends_witness :
  closes (history (fst (__init__ sample_args running_env))) = [3; 6] /\
  closes (history (fst (_run_process running_env
                          (before_worker sample_args running_env sample_policy)))) =
  [3; 6].
Proof.
  exact (worker_closes_its_pipe_ends sample_args running_env sample_policy
           sample_init_policy).
Defined.

Lemma quiet_wake_below_limits :
  wake_died quiet_wake = false /\
  ~ exceeded (settings (fst (__init__ sample_args running_env))) quiet_wake.
Proof.
  split; [reflexivity|]. intros [Hx|Hx]; vm_compute in Hx; discriminate.
Qed.

Lemma shocker_quiet_wakes_witness :
  history (fst (shocker_loop [quiet_wake; quiet_wake]
                  (fst (__init__ sample_args running_env)))) =
  history (fst (__init__ sample_args running_env)) ++
  [Killpg 4242 SIGWINCH; Killpg 4242 SIGWINCH].
Proof.
  destruct (shocker_quiet_wakes [quiet_wake; quiet_wake]
              (fst (__init__ sample_args running_env))) as (_ & Hhist & _).
  - repeat constructor; apply quiet_wake_below_limits.
  - exact Hhist.
Defined.

Lemma shocker_tle_only_if_exceeded_witness :
  Exists (fun w => wake_died w = false /\
                   exceeded (settings (fst (__init__ sample_args running_env))) w)
    [quiet_wake; running_wake].
Proof.
  apply (shocker_tle_only_if_exceeded [quiet_wake; running_wake]
           (fst (__init__ sample_args running_env))).
  - reflexivity.
  - vm_compute. reflexivity.
Defined.

Lemma wait_returns_only_witness :
  _died killed_child = true /\ Some (-9) = returncode (process killed_child) /\
  (was_initialized (process killed_child) = true \/
   exists code, Some (-9) = Some code /\ code < 0 /\ ~ spawn_fail_code code).
Proof.
  apply (wait_returns_only killed_child (Some (-9))). vm_compute. reflexivity.
Defined.

Lemma wait_reports_failed_spawn_witness :
  wait execve_failed = Some (Raise (RuntimeError "failed to spawn child")).
Proof.
  destruct (wait_reports_failed_spawn execve_failed 205) as [_ Hexecve].
  - vm_compute. reflexivity.
  - reflexivity.
  - reflexivity.
  - apply Hexecve; [reflexivity | discriminate | discriminate | discriminate].
Defined.

Lemma readstr_32bit_aliases_witness :
  readstr sample_string_debugger (0x1000 + 1 * 2 ^ 32) 8 =
  readstr sample_string_debugger 0x1000 8.
Proof.
  apply (readstr_32bit_aliases sample_string_debugger 0x1000 1 8). reflexivity.
Defined.

Lemma readstr_result_bound_witness :
  exists read,
    Debugger_readstr sample_memory (Z.land 0x100001000 0xFFFFFFFF) (8 + 1) = Some read /\
    (length read <= 8)%nat /\ utf8text read = Ok "hi"%string.
Proof.
  apply (proj2 (readstr_result_bound sample_string_debugger 0x100001000 8) "hi"%string).
  vm_compute. reflexivity.
Defined.

Lemma tle_flag_is_sticky_witness :
  _is_tle (fst (shocker_loop [quiet_wake; exited_wake]
                  (_cpu_time_exceeded (fst (__init__ sample_args running_env))))) = true.
Proof.
  destruct (tle_flag_is_sticky (_cpu_time_exceeded (fst (__init__ sample_args running_env))))
    as (Hloop & _).
  apply (proj1 (Hloop [quiet_wake; exited_wake])). reflexivity.
Defined.

Lemma unsupported_abi_has_no_callbacks_witness :
  _callback sample_policy (sample_debugger PTBOX_ABI_X86 5) 5 = false.
Proof.
  destruct (unsupported_abi_has_no_callbacks sample_security sample_policy
              (sample_debugger PTBOX_ABI_X86 5) 5) as [Hunsup _].
  - simpl. lia.
  - apply Hunsup; [exact sample_policy_installed|].
    simpl. intros [Hx|[Hx|[]]]; discriminate.
Defined.

Lemma verdict_flags_partition_witness :
  (-9 < 0 /\ is_ir killed_child = Ok false /\ is_rte killed_child = true).
Proof.
  destruct (proj2 (verdict_flags_partition killed_child) (-9) eq_refl)
    as [(Hpos & _)|[Hneg|(Hzero & _)]]; [lia | exact Hneg | discriminate].
Defined.

End MoreSampleProperties.
